(** * flexi-cache/pkg/signal: signal registry, termination pipeline, exit codes

    A shallow embedding of the Go package [signal] (handlers.go, logger.go and
    the termination/exit-code file) and the properties its specification
    states about it.

    Conventions of the embedding:
    - Go's [int] exit codes are [Z]; the package only stores them, returns
      them and compares them with [0], so no wrap-around arises.
    - A Go interface value is an [option]: [None] is the nil interface.
    - Everything outside the [Handlers] object (standard log sink, the state
      touched by user callbacks) is one abstract type [World].  User supplied
      callbacks are total state transformers on it: they are assumed to
      return.  Panics and process exit come from the package's own actions
      (a method call on a nil logger, [os.Exit], closing a closed channel).
    - [globalLock] is not modelled: the embedding is sequential. *)

From stdpp Require Import base option list gmap strings.
From Stdlib Require Import ZArith Lia.

Local Open Scope string_scope.
Local Open Scope list_scope.
Local Open Scope Z_scope.

(** ** Errors and the exit-code carrier *)

(** The dynamic value held by a non-nil Go [error].  [errorWithExitCode] is
    the package's struct [{error; exitCode int}] (its embedded [error] field
    is itself an interface, hence an [option]); [otherError] stands for every
    other dynamic type, e.g. [io.EOF] or an [fmt.Errorf] wrapper, which may
    expose a cause through [Unwrap]. *)
#[local] Set Warnings "-register-all".
Inductive errValue : Type :=
| otherError (msg : string) (unwrap : option errValue)
| errorWithExitCode (inner : option errValue) (exitCode : Z).

(** Go's [error] interface. *)
Definition error : Type := option errValue.

Definition io_EOF : errValue := otherError "EOF" None.

(** The type assertion [e.(errorWithExitCode)]. *)
Definition is_carrier (e : error) : bool :=
  match e with
  | Some (errorWithExitCode _ _) => true
  | _ => false
  end.

Definition getCodeFromError (e : error) (def : Z) : Z :=
  match e with
  | Some (errorWithExitCode _ exitCode) => exitCode
  | _ => def
  end.

Definition WrapErrorWithCode (e : error) (code : Z) : error :=
  match e with
  | None => None
  | Some _ => Some (errorWithExitCode e code)
  end.

(** The method [Error()].  [errorWithExitCode] has it through its embedded
    [error] field, so the call is forwarded to that field; forwarding to a nil
    interface panics, which is [None] here. *)
Fixpoint Error (e : errValue) : option string :=
  match e with
  | otherError msg _ => Some msg
  | errorWithExitCode inner _ =>
      match inner with
      | Some v => Error v
      | None => None
      end
  end.

(** The code one returned error resolves to in the pipeline: the carried
    code, else the default 1; 0 stands for the nil error. *)
Definition resolved (e : error) : Z :=
  match e with
  | None => 0
  | Some _ => getCodeFromError e 1
  end.

(** The exit code as the loop computes it: the first resolved code that is
    not 0. *)
Definition first_nonzero (codes : list Z) : Z :=
  hd 0 (filter (fun c => c <> 0) codes).

(** The exit code as the specification words it: the code of the first
    non-nil error. *)
Definition first_error_code (errs : list error) : Z :=
  match filter (fun e => e <> None) errs with
  | [] => 0
  | e :: _ => getCodeFromError e 1
  end.

(** ** Signals *)

(** Values of the interface [os.Signal]: the package-private sentinel
    [anySignal], the nil interface, and [syscall.Signal] numbers. *)
Inductive Signal : Type :=
| anySignal
| nilSignal
| sysSignal (n : Z).

#[global] Instance Signal_eq_dec : EqDecision Signal.
Proof. solve_decision. Defined.

Definition Signal_enc (s : Signal) : unit + (unit + Z) :=
  match s with
  | anySignal => inl tt
  | nilSignal => inr (inl tt)
  | sysSignal n => inr (inr n)
  end.

Definition Signal_dec (x : unit + (unit + Z)) : Signal :=
  match x with
  | inl _ => anySignal
  | inr (inl _) => nilSignal
  | inr (inr n) => sysSignal n
  end.

#[global] Instance Signal_countable : Countable Signal.
Proof.
  refine (inj_countable' Signal_enc Signal_dec _).
  intros []; reflexivity.
Defined.

Definition SIGINT : Signal := sysSignal 2.
Definition SIGTERM : Signal := sysSignal 15.
Definition SIGUSR1 : Signal := sysSignal 10.
Definition SIGUSR2 : Signal := sysSignal 12.

Definition DefaultTerminationSignals : list Signal := [SIGTERM; SIGINT].

(** Values passed to the variadic logging methods. *)
Inductive LogArg : Type :=
| argString (s : string)
| argSignal (sig : Signal)
| argError (e : errValue).

(** ** The effect monad: world state, panic and process exit *)

Section Model.

Context {World : Type}.

(** [log.Println] of Go's standard library: the sink used by [stdLogger]. *)
Variable Println : list LogArg -> World -> World.

(** How a call ends: it returns [a], the process exits with [code]
    ([os.Exit] never returns), or the goroutine panics. *)
Inductive Outcome (A : Type) : Type :=
| Done (a : A) (w : World)
| Exited (code : Z) (w : World)
| Panicked (w : World).
Arguments Done {A} a w.
Arguments Exited {A} code w.
Arguments Panicked {A} w.

Definition M (A : Type) : Type := World -> Outcome A.

#[global] Instance M_ret : MRet M := fun A a w => Done a w.

#[global] Instance M_bind : MBind M := fun A B k m w =>
  match m w with
  | Done a w' => k a w'
  | Exited code w' => Exited code w'
  | Panicked w' => Panicked w'
  end.

Definition panic {A} : M A := fun w => Panicked w.

(** A call into user code that returns. *)
Definition call (f : World -> World) : M unit := fun w => Done tt (f w).

(** ** Data model *)

(** The interface [Logger] of logger.go. *)
Record Logger : Type := {
  Info : list LogArg -> World -> World;
  Debug : list LogArg -> World -> World;
}.

Definition stdLogger : Logger :=
  {| Debug := fun _ w => w;
     Info := fun args w => Println args w |}.

(** [TerminationFunc]: [func(os.Signal) error]. *)
Definition TerminationFunc : Type := Signal -> World -> error * World.

Definition NewTerminationFunc (fn : World -> World) : TerminationFunc :=
  fun _ w => (None, fn w).

Record terminationProcedure : Type := {
  fn : TerminationFunc;
  message : string;
}.

(** [HandlerFunc]: [func(os.Signal)].  The registry of a [Handlers] object
    [s] holds user callbacks and the method value [s.handleTerminationSignals];
    the latter is bound to the pointer [s], so it reads the fields of [s] as
    they are when it is called. *)
Inductive HandlerFunc : Type :=
| userHandler (f : Signal -> World -> World)
| handleTerminationSignals_method.

(** The field [exit func(int)]: [os.Exit], or a function given to [setExit]. *)
Inductive ExitFunc : Type :=
| os_Exit
| exitFunc (f : Z -> World -> World).

Record Handlers : Type := {
  log : option Logger;
  exit : ExitFunc;
  handlers : gmap Signal (list HandlerFunc);
  terminationSignals : list Signal;
  terminationProcedures : list terminationProcedure;
}.

Definition set_log (l : option Logger) (s : Handlers) : Handlers :=
  {| log := l; exit := exit s; handlers := handlers s;
     terminationSignals := terminationSignals s;
     terminationProcedures := terminationProcedures s |}.

Definition set_exit (e : ExitFunc) (s : Handlers) : Handlers :=
  {| log := log s; exit := e; handlers := handlers s;
     terminationSignals := terminationSignals s;
     terminationProcedures := terminationProcedures s |}.

Definition set_handlers (m : gmap Signal (list HandlerFunc)) (s : Handlers)
  : Handlers :=
  {| log := log s; exit := exit s; handlers := m;
     terminationSignals := terminationSignals s;
     terminationProcedures := terminationProcedures s |}.

Definition set_terminationProcedures (ps : list terminationProcedure)
  (s : Handlers) : Handlers :=
  {| log := log s; exit := exit s; handlers := handlers s;
     terminationSignals := terminationSignals s;
     terminationProcedures := ps |}.

(** ** Calls through the fields of [s] *)

(** [s.log.Info(args...)]: a method call on a nil interface panics. *)
Definition log_Info (s : Handlers) (args : list LogArg) : M unit :=
  match log s with
  | None => panic
  | Some l => call (Info l args)
  end.

Definition log_Debug (s : Handlers) (args : list LogArg) : M unit :=
  match log s with
  | None => panic
  | Some l => call (Debug l args)
  end.

(** [s.exit(code)]. *)
Definition call_exit (s : Handlers) (code : Z) : M unit :=
  match exit s with
  | os_Exit => fun w => Exited code w
  | exitFunc f => call (f code)
  end.

(** ** Construction and registration (handlers.go) *)

(** One iteration of the loop of [RegisterSignalHandler]. *)
Definition register_one (handler : HandlerFunc)
  (m : gmap Signal (list HandlerFunc)) (sig : Signal)
  : gmap Signal (list HandlerFunc) :=
  match m !! sig with
  | Some hs => <[sig := hs ++ [handler]]> m
  | None => <[sig := [handler]]> m
  end.

(** Indexing a Go map at a missing key gives the nil slice. *)
Definition index (m : gmap Signal (list HandlerFunc)) (sig : Signal)
  : list HandlerFunc :=
  default [] (m !! sig).

Definition RegisterSignalHandler (handler : HandlerFunc)
  (signals : list Signal) (s : Handlers) : Handlers :=
  if decide (length signals = 0%nat) then
    set_handlers
      (<[anySignal := index (handlers s) anySignal ++ [handler]]> (handlers s)) s
  else
    set_handlers (foldl (register_one handler) (handlers s) signals) s.

Definition installTerminationHandlers (s : Handlers) : Handlers :=
  RegisterSignalHandler handleTerminationSignals_method (terminationSignals s) s.

Definition NewHandlers (terminationSignals : list Signal) : Handlers :=
  let terminationSignals :=
    if decide (length terminationSignals = 0%nat)
    then DefaultTerminationSignals else terminationSignals in
  installTerminationHandlers
    {| terminationSignals := terminationSignals;
       handlers := <[anySignal := []]> ∅;
       log := Some stdLogger;
       exit := os_Exit;
       terminationProcedures := [] |}.

(** [RegisterTerminationProcedure] appends under the lock and logs after
    releasing it: the new state, and the effect of the logging call. *)
Definition RegisterTerminationProcedure (f : TerminationFunc) (msg : string)
  (s : Handlers) : Handlers * M unit :=
  let s' :=
    set_terminationProcedures
      (terminationProcedures s ++ [{| fn := f; message := msg |}]) s in
  (s', log_Debug s' [argString "registered termination procedure for: ";
                     argString msg]).

Definition setExit (e : ExitFunc) (s : Handlers) : Handlers := set_exit e s.

Definition SetLogger (l : option Logger) (s : Handlers) : Handlers :=
  set_log l s.

(** ** The termination pipeline *)

(** The loop of [runTerminationProcedures], with the local [code]. *)
Fixpoint runProcedures (s : Handlers) (sig : Signal)
  (procs : list terminationProcedure) (code : Z) : M Z :=
  match procs with
  | [] => mret code
  | proc :: rest =>
      log_Info s [argString (message proc)];;
      err ← (fun w => let '(e, w') := fn proc sig w in Done e w');
      match err with
      | None => runProcedures s sig rest code
      | Some e =>
          log_Info s [argString "error while running termination procedure: ";
                      argError e];;
          runProcedures s sig rest
            (if decide (code = 0) then getCodeFromError err 1 else code)
      end
  end.

Definition runTerminationProcedures (s : Handlers) (sig : Signal) : M Z :=
  if decide (length (terminationProcedures s) = 0%nat) then
    log_Info s [argString "nothing to do before termination"];;
    mret 0
  else
    code ← runProcedures s sig (terminationProcedures s) 0;
    log_Info s [argString "all termination procedures are done"];;
    mret code.

Definition handleTerminationSignals (s : Handlers) (sig : Signal) : M unit :=
  code ← runTerminationProcedures s sig;
  log_Info s [argString "bye"];;
  call_exit s code.

(** What a run of the procedures yields when a logger [l] is installed: the
    errors they return, in order, and the world they leave. *)
Fixpoint pipeline_run (l : Logger) (sig : Signal)
  (procs : list terminationProcedure) (w : World) : list error * World :=
  match procs with
  | [] => ([], w)
  | proc :: rest =>
      let '(e, w1) := fn proc sig (Info l [argString (message proc)] w) in
      let w2 :=
        match e with
        | None => w1
        | Some v =>
            Info l [argString "error while running termination procedure: ";
                    argError v] w1
        end in
      let '(es, w3) := pipeline_run l sig rest w2 in
      (e :: es, w3)
  end.

(** ** Dispatch *)

(** [handle(target)] for one registered callback. *)
Definition call_handler (s : Handlers) (target : Signal) (h : HandlerFunc)
  : M unit :=
  match h with
  | userHandler f => call (f target)
  | handleTerminationSignals_method => handleTerminationSignals s target
  end.

(** [for _, handle := range hs { handle(target) }]. *)
Fixpoint call_handlers (s : Handlers) (target : Signal)
  (hs : list HandlerFunc) : M unit :=
  match hs with
  | [] => mret tt
  | h :: rest => call_handler s target h;; call_handlers s target rest
  end.

(** [for sig, handlers := range s.handlers { ... }], over the map entries in
    the order [entries] in which the runtime enumerates them. *)
Fixpoint range_handlers (s : Handlers) (target : Signal)
  (entries : list (Signal * list HandlerFunc)) : M unit :=
  match entries with
  | [] => mret tt
  | (sig, hs) :: rest =>
      (if decide (sig ≠ target) then
         log_Debug s [argString "no handler found for signal: ";
                      argSignal target]
       else call_handlers s target hs);;
      range_handlers s target rest
  end.

(** [n] keys other than [target] met in a row by that loop. *)
Fixpoint debugs (s : Handlers) (target : Signal) (n : nat) : M unit :=
  match n with
  | O => mret tt
  | S n =>
      log_Debug s [argString "no handler found for signal: ";
                   argSignal target];;
      debugs s target n
  end.

(** A logger whose [Debug] does nothing, as [stdLogger]. *)
Definition quiet (l : Logger) : Prop := forall args w, Debug l args w = w.

(** Go leaves the iteration order of a map unspecified: [entries] may be any
    enumeration of the registry, each key once. *)
Definition range_of (m : gmap Signal (list HandlerFunc))
  (entries : list (Signal * list HandlerFunc)) : Prop :=
  entries ≡ₚ map_to_list m.

Definition handleSignal (s : Handlers) (target : Signal)
  (entries : list (Signal * list HandlerFunc)) : M unit :=
  call_handlers s target (index (handlers s) anySignal);;
  range_handlers s target entries.

(** ** The listener *)

(** The channel [c] made by [StartListen]: whether [signal.Notify] still
    relays signals to it, and whether it has been closed. *)
Record Listener : Type := {
  notified : bool;
  closed : bool;
}.

(** [signal.Stop(c)]. *)
Definition signal_Stop (c : Listener) : Listener :=
  {| notified := false; closed := closed c |}.

(** [close(c)]: closing a closed channel panics. *)
Definition close_chan (c : Listener) : M Listener :=
  if closed c then panic
  else mret {| notified := notified c; closed := true |}.

(** The function returned by [StartListen]. *)
Definition cancel (c : Listener) : M Listener :=
  close_chan (signal_Stop c).

Definition StartListen (s : Handlers) : M Listener :=
  log_Debug s [argString "start listening to all signals"];;
  mret {| notified := true; closed := false |}.

(** The body of the goroutine's loop for one received signal. *)
Definition listen_step (s : Handlers) (sig : Signal)
  (entries : list (Signal * list HandlerFunc)) : M unit :=
  log_Info s [argString "signal received: "; argSignal sig];;
  handleSignal s sig entries.

(** ** Runs of the public operations *)

Inductive Op : Type :=
| opRegisterSignalHandler (h : Signal -> World -> World) (signals : list Signal)
| opRegisterTerminationProcedure (f : TerminationFunc) (msg : string)
| opSetLogger (l : option Logger)
| opSetExit (e : ExitFunc)
| opDispatch (target : Signal) (entries : list (Signal * list HandlerFunc)).

(** The state of the [Handlers] object after an operation, and its effect.
    A dispatch leaves the object as it is: it holds the read lock while the
    callbacks run, and every mutator of the registry takes the write lock. *)
Definition step (o : Op) (s : Handlers) : Handlers * M unit :=
  match o with
  | opRegisterSignalHandler h signals =>
      (RegisterSignalHandler (userHandler h) signals s, mret tt)
  | opRegisterTerminationProcedure f msg =>
      RegisterTerminationProcedure f msg s
  | opSetLogger l => (SetLogger l s, mret tt)
  | opSetExit e => (setExit e s, mret tt)
  | opDispatch target entries => (s, handleSignal s target entries)
  end.

Definition run_ops (ops : list Op) (s : Handlers) : Handlers :=
  foldl (fun s o => (step o s).1) s ops.

(** A sequence of calls [RegisterSignalHandler(h, signals...)]. *)
Definition register_all (regs : list ((Signal -> World -> World) * list Signal))
  (s : Handlers) : Handlers :=
  foldl (fun s r => RegisterSignalHandler (userHandler r.1) r.2 s) s regs.

(** How many times [key] is named in [signals]. *)
Definition occurrences (key : Signal) (signals : list Signal) : nat :=
  length (filter (key =.) signals).

(** The callbacks that the calls [regs] append to the list of [key]. *)
Definition registered (key : Signal)
  (regs : list ((Signal -> World -> World) * list Signal))
  : list (Signal -> World -> World) :=
  flat_map (fun r =>
    if decide (length r.2 = 0%nat)
    then (if decide (key = anySignal) then [r.1] else [])
    else replicate (occurrences key r.2) r.1) regs.

(** The callbacks registered for all signals (no signal named), in
    registration order. *)
Definition wildcards (regs : list ((Signal -> World -> World) * list Signal))
  : list (Signal -> World -> World) :=
  (filter (fun r => r.2 = []) regs).*1.

(** The callbacks registered for [target] by name, in registration order,
    once per mention. *)
Definition specifics (target : Signal)
  (regs : list ((Signal -> World -> World) * list Signal))
  : list (Signal -> World -> World) :=
  flat_map (fun r => replicate (occurrences target r.2) r.1) regs.

(** A sequence of calls [RegisterTerminationProcedure(fn, message)], and the
    state of the object after them. *)
Definition register_procedures (ps : list (TerminationFunc * string))
  (s : Handlers) : Handlers :=
  foldl (fun s p => (RegisterTerminationProcedure p.1 p.2 s).1) s ps.

(** The goroutine of [StartListen]: [for sig := range c { ... }] over the
    signals received before the channel is closed, each with the order in
    which the registry is enumerated for it. *)
Fixpoint listen_loop (s : Handlers)
  (received : list (Signal * list (Signal * list HandlerFunc))) : M unit :=
  match received with
  | [] => mret tt
  | (sig, entries) :: rest =>
      listen_step s sig entries;; listen_loop s rest
  end.

(** The registrations among a sequence of operations. *)
Definition regs_of (ops : list Op)
  : list ((Signal -> World -> World) * list Signal) :=
  omap (fun o =>
          match o with
          | opRegisterSignalHandler h signals => Some (h, signals)
          | _ => None
          end) ops.

(** The world after [n] calls of [Debug] for a dispatch of [target]. *)
Definition debug_calls (l : Logger) (target : Signal) (n : nat) (w : World)
  : World :=
  Nat.iter n
    (Debug l [argString "no handler found for signal: "; argSignal target]) w.

(** What the pipeline returns and the world it leaves when a logger [l] is
    installed. *)
Definition pipeline_code (l : Logger) (sig : Signal)
  (procs : list terminationProcedure) (w : World) : Z :=
  first_nonzero (resolved <$> (pipeline_run l sig procs w).1).

Definition pipeline_world (l : Logger) (sig : Signal)
  (procs : list terminationProcedure) (w : World) : World :=
  match procs with
  | [] => Info l [argString "nothing to do before termination"] w
  | _ :: _ =>
      Info l [argString "all termination procedures are done"]
        (pipeline_run l sig procs w).2
  end.

End Model.

Arguments Done {World A} a w.
Arguments Exited {World A} code w.
Arguments Panicked {World A} w.

(** ** A concrete world: the trace of what the package called *)

Inductive Event : Type :=
| evPrintln (args : list LogArg)
| evInfo (args : list LogArg)
| evDebug (args : list LogArg)
| evCalled (name : string) (sig : Signal)
| evExit (code : Z).

Definition Trace : Type := list Event.

Definition record (e : Event) (t : Trace) : Trace := t ++ [e].

Definition tracePrintln (args : list LogArg) : Trace -> Trace :=
  record (evPrintln args).

(** A user logger that records both levels. *)
Definition traceLogger : @Logger Trace :=
  {| Info := fun args => record (evInfo args);
     Debug := fun args => record (evDebug args) |}.

(** A signal callback that records its call. *)
Definition named (name : string) : Signal -> Trace -> Trace :=
  fun sig => record (evCalled name sig).

(** A termination function that records its call and returns [e]. *)
Definition returning (name : string) (e : error) : @TerminationFunc Trace :=
  fun sig t => (e, record (evCalled name sig) t).

(** The exit function installed by the tests through [setExit]. *)
Definition traceExit : @ExitFunc Trace :=
  exitFunc (fun code => record (evExit code)).

(** The codes the exit function was called with, and the callbacks that
    were called, in order. *)
Definition exits (t : Trace) : list Z :=
  omap (fun e => match e with evExit code => Some code | _ => None end) t.

Definition calls (t : Trace) : list string :=
  omap (fun e => match e with evCalled name _ => Some name | _ => None end) t.

(** The registrations of the package's test of the execution order: two
    callbacks for SIGUSR1, then two for all signals. *)
Definition order_test_regs : list ((Signal -> Trace -> Trace) * list Signal) :=
  [(named "1", [SIGUSR1]); (named "2", [SIGUSR1]);
   (named "a1", []); (named "a2", [])].

(** That test's object: [NewHandlers(nil)] and the four registrations. *)
Definition order_test_handlers : @Handlers Trace :=
  register_all order_test_regs (NewHandlers tracePrintln [nilSignal]).

(** The object of the tests that replace the exit function. *)
Definition exit_test_handlers : @Handlers Trace :=
  setExit traceExit (NewHandlers tracePrintln []).

(** [exit_test_handlers] with the given termination functions registered,
    each under its name as message. *)
Definition with_procedures (ps : list (string * error)) : @Handlers Trace :=
  foldl (fun s p =>
           (RegisterTerminationProcedure (returning p.1 p.2) p.1 s).1)
    exit_test_handlers ps.

(** An object with a wildcard callback, a callback registered for SIGTERM
    after construction, and one failing termination procedure of code 3. *)
Definition late_handlers : @Handlers Trace :=
  (RegisterTerminationProcedure
     (returning "cleanup" (WrapErrorWithCode (Some io_EOF) 3)) "cleanup"
     (register_all [(named "all", []); (named "late", [SIGTERM])]
        (NewHandlers tracePrintln []))).1.

(** The object of the execution-order test with a logger that records. *)
Definition logged_handlers : @Handlers Trace :=
  SetLogger (Some traceLogger) order_test_handlers.

(** A new object after its exit function and logger were replaced and
    callbacks were registered, one of them for SIGTERM. *)
Definition replaced_ops : list (@Op Trace) :=
  [opSetExit traceExit;
   opRegisterSignalHandler (named "all") [];
   opSetLogger (Some traceLogger);
   opRegisterSignalHandler (named "late") [SIGTERM]].

Definition replaced_handlers : @Handlers Trace :=
  run_ops replaced_ops (NewHandlers tracePrintln []).

(** * Properties *)

(** ** The exit-code carrier *)

(** C9: wrapping the nil error gives the nil error, whatever the code. *)
Theorem WrapErrorWithCode_nil (code : Z) :
  WrapErrorWithCode None code = None.
Proof. reflexivity. Qed.

Lemma WrapErrorWithCode_carrier (e : errValue) (code : Z) :
  is_carrier (WrapErrorWithCode (Some e) code) = true.
Proof. reflexivity. Qed.

Lemma getCodeFromError_not_carrier (e : error) (def : Z) :
  is_carrier e = false -> getCodeFromError e def = def.
Proof.
  destruct e as [[msg cause | inner c] | ]; simpl; intros Hc.
  - reflexivity.
  - discriminate Hc.
  - reflexivity.
Qed.

Lemma getCodeFromError_wrap (e : error) (code def : Z) :
  e <> None -> getCodeFromError (WrapErrorWithCode e code) def = code.
Proof.
  destruct e as [v | ]; intros Hnil.
  - reflexivity.
  - contradiction Hnil; reflexivity.
Qed.

(** C5: extracting from a wrapped non-nil error gives back the wrapped code
    (42 against the default -1 in particular), and an error that is not a
    carrier yields the caller's default. *)
Theorem getCodeFromError_WrapErrorWithCode
  (err plainErr : error) (code def def' : Z) :
  err <> None ->
  is_carrier plainErr = false ->
  getCodeFromError (WrapErrorWithCode err 42) (-1) = 42
  /\ getCodeFromError (WrapErrorWithCode err code) def = code
  /\ getCodeFromError plainErr def' = def'.
Proof.
  intros Herr Hplain. repeat split.
  - apply getCodeFromError_wrap, Herr.
  - apply getCodeFromError_wrap, Herr.
  - apply getCodeFromError_not_carrier, Hplain.
Qed.

Lemma getCodeFromError_WrapErrorWithCode_witness :
  getCodeFromError (WrapErrorWithCode (Some io_EOF) 42) (-1) = 42
  /\ getCodeFromError (WrapErrorWithCode (Some io_EOF) 7) 3 = 7
  /\ getCodeFromError (Some io_EOF) 42 = 42.
Proof.
  apply (getCodeFromError_WrapErrorWithCode (Some io_EOF) (Some io_EOF) 7 3 42).
  - discriminate.
  - reflexivity.
Defined.

(** C10: wrapping a carrier wraps it once more, and extraction reads the
    outermost code. *)
Theorem getCodeFromError_rewrap (e : errValue) (a b d : Z) :
  WrapErrorWithCode (WrapErrorWithCode (Some e) a) b
    = Some (errorWithExitCode (Some (errorWithExitCode (Some e) a)) b)
  /\ getCodeFromError (WrapErrorWithCode (WrapErrorWithCode (Some e) a) b) d = b.
Proof. split; reflexivity. Qed.

(** ** The effect monad *)

Section Properties.

Context {World : Type}.
Variable Println : list LogArg -> World -> World.

Implicit Types (s : @Handlers World) (w : World) (sig target : Signal).
Implicit Types (hs : list (@HandlerFunc World)).
Implicit Types (entries : list (Signal * list (@HandlerFunc World))).
Implicit Types (regs : list ((Signal -> World -> World) * list Signal)).

Lemma bind_Done {A B} (m : M A) (k : A -> M B) w a w' :
  m w = Done a w' -> (m ≫= k) w = k a w'.
Proof. intros Hm. unfold mbind, M_bind. rewrite Hm. reflexivity. Qed.

Lemma bind_Panicked {A B} (m : M A) (k : A -> M B) w w' :
  m w = Panicked w' -> (m ≫= k) w = Panicked w'.
Proof. intros Hm. unfold mbind, M_bind. rewrite Hm. reflexivity. Qed.

Lemma bind_Exited {A B} (m : M A) (k : A -> M B) w code w' :
  m w = Exited code w' -> (m ≫= k) w = Exited code w'.
Proof. intros Hm. unfold mbind, M_bind. rewrite Hm. reflexivity. Qed.

Lemma bind_mret_r {A} (m : M A) w : (m ≫= mret) w = m w.
Proof. unfold mbind, M_bind, mret, M_ret. destruct (m w); reflexivity. Qed.

Lemma bind_assoc {A B C} (m : M A) (k : A -> M B) (k' : B -> M C) w :
  ((m ≫= k) ≫= k') w = (m ≫= fun a => k a ≫= k') w.
Proof. unfold mbind, M_bind. destruct (m w); reflexivity. Qed.

Lemma log_Info_Some s l args w :
  log s = Some l -> log_Info s args w = Done tt (Info l args w).
Proof. intros Hl. unfold log_Info. rewrite Hl. reflexivity. Qed.

Lemma log_Debug_Some s l args w :
  log s = Some l -> log_Debug s args w = Done tt (Debug l args w).
Proof. intros Hl. unfold log_Debug. rewrite Hl. reflexivity. Qed.

Lemma log_Info_nil s args w : log s = None -> log_Info s args w = Panicked w.
Proof. intros Hl. unfold log_Info. rewrite Hl. reflexivity. Qed.

Lemma log_Debug_nil s args w : log s = None -> log_Debug s args w = Panicked w.
Proof. intros Hl. unfold log_Debug. rewrite Hl. reflexivity. Qed.

(** ** The termination pipeline *)

(** C4: with a logger installed and no registered procedure the pipeline
    logs "nothing to do before termination" at Info level, returns 0, and
    neither panics nor exits. *)
Theorem runTerminationProcedures_empty s l sig w :
  terminationProcedures s = [] ->
  log s = Some l ->
  runTerminationProcedures s sig w
    = Done 0 (Info l [argString "nothing to do before termination"] w).
Proof.
  intros Hprocs Hlog. unfold runTerminationProcedures.
  rewrite Hprocs. simpl.
  erewrite bind_Done by (apply log_Info_Some; exact Hlog).
  reflexivity.
Qed.

Lemma runProcedures_run s l sig procs code w :
  log s = Some l ->
  runProcedures s sig procs code w
    = Done (if decide (code = 0)
            then first_nonzero (resolved <$> (pipeline_run l sig procs w).1)
            else code)
           (pipeline_run l sig procs w).2.
Proof.
  intros Hlog. revert code w.
  induction procs as [ | proc rest IH]; intros code w; simpl.
  - unfold mret, M_ret. destruct (decide (code = 0)) as [-> | ]; reflexivity.
  - erewrite bind_Done by (apply log_Info_Some; exact Hlog).
    unfold mbind at 1, M_bind at 1.
    destruct (fn proc sig (Info l [argString (message proc)] w))
      as [[v | ] w1] eqn:Hfn.
    + erewrite bind_Done by (apply log_Info_Some; exact Hlog).
      rewrite IH.
      destruct (pipeline_run l sig rest _) as [es w3]. simpl.
      unfold first_nonzero. simpl.
      destruct (decide (code = 0)) as [-> | Hcode].
      * match goal with
        | |- context [decide (?x = 0)] => generalize x
        end.
        intros c.
        rewrite filter_cons.
        destruct (decide (c = 0)) as [-> | Hnz].
        -- rewrite decide_False by tauto. reflexivity.
        -- rewrite decide_True by exact Hnz. reflexivity.
      * rewrite decide_False by exact Hcode. reflexivity.
    + rewrite IH.
      destruct (pipeline_run l sig rest w1) as [es w3]. simpl.
      unfold first_nonzero. simpl.
      destruct (decide (code = 0)) as [-> | Hcode]; [ | reflexivity].
      rewrite filter_cons, decide_False by tauto. reflexivity.
Qed.

(** Every procedure is run, whatever the earlier ones returned. *)
Lemma pipeline_run_length (l : @Logger World) sig procs w :
  length (pipeline_run l sig procs w).1 = length procs.
Proof.
  revert w. induction procs as [ | proc rest IH]; intros w; simpl.
  - reflexivity.
  - destruct (fn proc sig _) as [e w1].
    specialize (IH (match e with
                    | Some v => Info l [argString
                        "error while running termination procedure: ";
                        argError v] w1
                    | None => w1 end)).
    destruct (pipeline_run l sig rest _) as [es w3]. simpl in *.
    rewrite IH. reflexivity.
Qed.

(** The pipeline on a non-empty sequence: all procedures run, and the code
    is the first resolved code that is not 0. *)
Lemma runTerminationProcedures_run s l sig w :
  log s = Some l ->
  terminationProcedures s <> [] ->
  runTerminationProcedures s sig w
    = Done (first_nonzero
              (resolved <$> (pipeline_run l sig (terminationProcedures s) w).1))
           (Info l [argString "all termination procedures are done"]
              (pipeline_run l sig (terminationProcedures s) w).2).
Proof.
  intros Hlog Hne. unfold runTerminationProcedures.
  destruct (terminationProcedures s) as [ | proc rest] eqn:Hprocs;
    [contradiction Hne; reflexivity | ].
  rewrite decide_False by (simpl; lia).
  erewrite bind_Done by (apply runProcedures_run; exact Hlog).
  erewrite bind_Done by (apply log_Info_Some; exact Hlog).
  reflexivity.
Qed.

(** The loop's code is the code of the first error as long as no returned
    carrier holds the code 0. *)
Lemma first_nonzero_first_error (errs : list error) :
  Forall (fun e => e <> None -> resolved e <> 0) errs ->
  first_nonzero (resolved <$> errs) = first_error_code errs.
Proof.
  unfold first_nonzero, first_error_code.
  induction 1 as [ | e errs He Hrest IH].
  - reflexivity.
  - rewrite fmap_cons, !filter_cons.
    destruct e as [v | ].
    + rewrite decide_True by (apply He; discriminate).
      rewrite decide_True by discriminate. reflexivity.
    + rewrite decide_False by (unfold resolved; tauto).
      rewrite decide_False by tauto. exact IH.
Qed.

(** C1: a first error that carries the code 0 does not settle the exit code.
    The first procedure returns [WrapErrorWithCode(io.EOF, 0)], the second
    returns [io.EOF]: both run, the first error's code is 0, and the pipeline
    returns the second error's code 1. *)
Theorem runTerminationProcedures_zero_code_overridden
  (f1 f2 : World -> World) sig w :
  runTerminationProcedures
    (RegisterTerminationProcedure
       (fun _ w => (Some io_EOF, f2 w)) "second"
       (RegisterTerminationProcedure
          (fun _ w => (WrapErrorWithCode (Some io_EOF) 0, f1 w)) "first"
          (NewHandlers Println [])).1).1 sig w
  = Done 1
      (Println [argString "all termination procedures are done"]
        (Println [argString "error while running termination procedure: ";
                  argError io_EOF]
          (f2 (Println [argString "second"]
            (Println [argString "error while running termination procedure: ";
                      argError (errorWithExitCode (Some io_EOF) 0)]
              (f1 (Println [argString "first"] w)))))))
  /\ first_error_code [WrapErrorWithCode (Some io_EOF) 0; Some io_EOF] = 0.
Proof. split; reflexivity. Qed.

(** ** The listener *)

(** C6: the function returned by [StartListen] works once and panics when it
    is called again, since it closes the channel a second time. *)
Theorem cancel_twice_panics (c : Listener) w :
  (c1 ← cancel c; cancel c1) w = Panicked w
  /\ (c0 ← StartListen (NewHandlers Println []); cancel c0) w
       = Done {| notified := false; closed := true |} w
  /\ (c0 ← StartListen (NewHandlers Println []); c1 ← cancel c0; cancel c1) w
       = Panicked w.
Proof.
  split; [ | split; reflexivity].
  unfold cancel, close_chan, signal_Stop, mbind, M_bind. simpl.
  destruct (closed c); reflexivity.
Qed.

(** ** The registry *)

Lemma register_one_is_Some (h : @HandlerFunc World) m sig key :
  is_Some (m !! key) -> is_Some (register_one h m sig !! key).
Proof.
  intros Hkey. unfold register_one.
  destruct (m !! sig) as [hs | ]; rewrite lookup_insert_is_Some'; tauto.
Qed.

Lemma foldl_register_one_is_Some (h : @HandlerFunc World) signals m key :
  is_Some (m !! key) -> is_Some (foldl (register_one h) m signals !! key).
Proof.
  revert m. induction signals as [ | sig signals IH]; intros m Hkey; simpl.
  - exact Hkey.
  - apply IH, register_one_is_Some, Hkey.
Qed.

Lemma RegisterSignalHandler_is_Some h signals s key :
  is_Some (handlers s !! key) ->
  is_Some (handlers (RegisterSignalHandler h signals s) !! key).
Proof.
  intros Hkey. unfold RegisterSignalHandler.
  destruct (decide (length signals = 0%nat)); simpl.
  - rewrite lookup_insert_is_Some'. tauto.
  - apply foldl_register_one_is_Some, Hkey.
Qed.

Lemma NewHandlers_anySignal ts :
  is_Some (handlers (NewHandlers Println ts) !! anySignal).
Proof.
  unfold NewHandlers, installTerminationHandlers.
  apply RegisterSignalHandler_is_Some. simpl.
  rewrite lookup_insert_eq. eexists; reflexivity.
Qed.

Lemma step_is_Some (o : Op) s key :
  is_Some (handlers s !! key) -> is_Some (handlers (step o s).1 !! key).
Proof.
  intros Hkey. destruct o; simpl; try exact Hkey.
  apply RegisterSignalHandler_is_Some, Hkey.
Qed.

Lemma run_ops_is_Some (ops : list Op) s key :
  is_Some (handlers s !! key) -> is_Some (handlers (run_ops ops s) !! key).
Proof.
  revert s. induction ops as [ | o ops IH]; intros s Hkey; simpl.
  - exact Hkey.
  - apply IH, step_is_Some, Hkey.
Qed.

(** C8: after construction and any sequence of registrations, logger and
    exit replacements and dispatches, the registry has the wildcard key. *)
Theorem anySignal_always_registered (ts : list Signal) (ops : list Op) :
  is_Some (handlers (run_ops ops (NewHandlers Println ts)) !! anySignal)
  /\ handlers (NewHandlers Println []) !! anySignal = Some [].
Proof.
  split.
  - apply run_ops_is_Some, NewHandlers_anySignal.
  - reflexivity.
Qed.

(** ** Dispatch *)

Lemma call_handlers_app s target hs1 hs2 w :
  call_handlers s target (hs1 ++ hs2) w
    = (call_handlers s target hs1;; call_handlers s target hs2) w.
Proof.
  revert w. induction hs1 as [ | h hs1 IH]; intros w; simpl.
  - reflexivity.
  - unfold mbind, M_bind in *.
    destruct (call_handler s target h w); try reflexivity. apply IH.
Qed.

Lemma call_handlers_user s target (fs : list (Signal -> World -> World)) w :
  call_handlers s target (userHandler <$> fs) w
    = Done tt (foldl (fun w f => f target w) w fs).
Proof.
  revert w. induction fs as [ | f fs IH]; intros w; simpl.
  - reflexivity.
  - unfold mbind, M_bind, call. apply IH.
Qed.

Lemma debugs_quiet s l target n w :
  log s = Some l -> quiet l -> debugs s target n w = Done tt w.
Proof.
  intros Hlog Hq. induction n as [ | n IH]; simpl.
  - reflexivity.
  - erewrite bind_Done by (apply log_Debug_Some; exact Hlog).
    rewrite Hq. exact IH.
Qed.

Lemma debugs_nil s target n w :
  log s = None -> debugs s target (S n) w = Panicked w.
Proof.
  intros Hlog. simpl. apply bind_Panicked, log_Debug_nil, Hlog.
Qed.

(** The loop over the registry when [target] has no entry: one [Debug] call
    per key. *)
Lemma range_handlers_absent s target entries w :
  target ∉ entries.*1 ->
  range_handlers s target entries w = debugs s target (length entries) w.
Proof.
  revert w. induction entries as [ | [sig hs] entries IH]; intros w Habs; simpl.
  - reflexivity.
  - rewrite fmap_cons, not_elem_of_cons in Habs. destruct Habs as [Hne Habs].
    rewrite decide_True by (simpl in Hne; congruence).
    unfold mbind, M_bind.
    destruct (log_Debug s _ w); try reflexivity. apply IH, Habs.
Qed.

(** The loop over the registry when [target] has the entry [hs]: its
    callbacks run in the order of [hs], among the [Debug] calls for the keys
    enumerated before and after it. *)
Lemma range_handlers_present s target hs entries :
  NoDup entries.*1 ->
  (target, hs) ∈ entries ->
  exists n1 n2 : nat,
    length entries = (n1 + 1 + n2)%nat
    /\ forall w,
         range_handlers s target entries w
           = (debugs s target n1;; call_handlers s target hs;;
              debugs s target n2) w.
Proof.
  induction entries as [ | [sig hs'] entries IH]; intros Hnd Hin.
  - apply elem_of_nil in Hin. contradiction.
  - rewrite fmap_cons, NoDup_cons in Hnd. destruct Hnd as [Hfresh Hnd].
    simpl in Hfresh.
    destruct (decide (sig = target)) as [-> | Hne].
    + assert (hs' = hs) as ->.
      { apply elem_of_cons in Hin as [Heq | Hin]; [congruence | ].
        contradiction Hfresh.
        apply list_elem_of_fmap. exists (target, hs). split; [reflexivity | exact Hin]. }
      exists 0%nat, (length entries). split; [simpl; lia | ].
      intros w. simpl. rewrite decide_False by tauto.
      unfold mbind, M_bind, mret, M_ret.
      destruct (call_handlers s target hs w); try reflexivity.
      apply range_handlers_absent, Hfresh.
    + apply elem_of_cons in Hin as [Heq | Hin]; [congruence | ].
      destruct (IH Hnd Hin) as (n1 & n2 & Hlen & Hrun).
      exists (S n1), n2. split; [simpl; lia | ].
      intros w. simpl. rewrite decide_True by exact Hne.
      unfold mbind, M_bind in *.
      destruct (log_Debug s _ w); try reflexivity. apply Hrun.
Qed.

Lemma range_of_NoDup (m : gmap Signal (list (@HandlerFunc World))) entries :
  range_of m entries -> NoDup entries.*1.
Proof.
  unfold range_of. intros Hperm. rewrite Hperm.
  apply NoDup_fst_map_to_list.
Qed.

Lemma range_of_elem (m : gmap Signal (list (@HandlerFunc World))) entries key hs :
  range_of m entries -> (key, hs) ∈ entries <-> m !! key = Some hs.
Proof.
  unfold range_of. intros Hperm. rewrite Hperm.
  apply elem_of_map_to_list.
Qed.

Lemma range_of_key (m : gmap Signal (list (@HandlerFunc World))) entries key :
  range_of m entries -> key ∈ entries.*1 <-> is_Some (m !! key).
Proof.
  intros Hr. rewrite list_elem_of_fmap. split.
  - intros ([k hs] & -> & Hin). simpl.
    exists hs. apply (range_of_elem m entries), Hin. exact Hr.
  - intros [hs Hlook]. exists (key, hs). split; [reflexivity | ].
    apply (range_of_elem m entries); assumption.
Qed.

(** Dispatch under a logger with a silent [Debug]: the wildcard callbacks in
    the order of their list, then those of [target] in the order of theirs,
    whatever order the registry is enumerated in. *)
Lemma handleSignal_quiet s l target entries w :
  log s = Some l ->
  quiet l ->
  range_of (handlers s) entries ->
  handleSignal s target entries w
    = call_handlers s target
        (index (handlers s) anySignal ++ index (handlers s) target) w.
Proof.
  intros Hlog Hq Hr. unfold handleSignal.
  rewrite call_handlers_app. unfold mbind at 1 2, M_bind at 1 2.
  destruct (call_handlers s target (index (handlers s) anySignal) w)
    as [[] w1 | code w1 | w1]; try reflexivity.
  unfold index at 1.
  destruct (handlers s !! target) as [hs | ] eqn:Hlook; simpl.
  - destruct (range_handlers_present s target hs entries) as (n1 & n2 & _ & ->).
    + eapply range_of_NoDup, Hr.
    + eapply range_of_elem; eassumption.
    + erewrite bind_Done by (eapply debugs_quiet; eassumption).
      unfold mbind, M_bind.
      destruct (call_handlers s target hs w1) as [[] w2 | | ]; try reflexivity.
      eapply debugs_quiet; eassumption.
  - rewrite range_handlers_absent.
    + eapply debugs_quiet; eassumption.
    + intros Hin. eapply range_of_key in Hin; [ | exact Hr].
      rewrite Hlook in Hin. destruct Hin as [? Hin]. discriminate Hin.
Qed.

(** ** What registration stores *)

Lemma occurrences_notin key signals :
  key ∉ signals -> occurrences key signals = 0%nat.
Proof.
  unfold occurrences. induction signals as [ | sig signals IH]; intros Hnot.
  - reflexivity.
  - apply not_elem_of_cons in Hnot as [Hne Hnot].
    rewrite filter_cons, decide_False by exact Hne. apply IH, Hnot.
Qed.

Lemma index_register_one (h : @HandlerFunc World) m sig key :
  index (register_one h m sig) key
    = index m key ++ (if decide (key = sig) then [h] else []).
Proof.
  unfold register_one, index.
  destruct (decide (key = sig)) as [-> | Hne].
  - destruct (m !! sig) as [hs | ]; rewrite lookup_insert_eq; reflexivity.
  - destruct (m !! sig) as [hs | ];
      rewrite lookup_insert_ne by congruence; rewrite app_nil_r; reflexivity.
Qed.

Lemma index_foldl_register_one (h : @HandlerFunc World) signals m key :
  index (foldl (register_one h) m signals) key
    = index m key ++ replicate (occurrences key signals) h.
Proof.
  unfold occurrences. revert m.
  induction signals as [ | sig signals IH]; intros m; simpl.
  - rewrite app_nil_r. reflexivity.
  - rewrite IH, index_register_one, filter_cons.
    destruct (decide (key = sig)); simpl.
    + rewrite <- app_assoc. reflexivity.
    + rewrite app_nil_r. reflexivity.
Qed.

Lemma index_RegisterSignalHandler h signals s key :
  index (handlers (RegisterSignalHandler h signals s)) key
    = index (handlers s) key
      ++ (if decide (length signals = 0%nat)
          then (if decide (key = anySignal) then [h] else [])
          else replicate (occurrences key signals) h).
Proof.
  unfold RegisterSignalHandler.
  destruct (decide (length signals = 0%nat)); simpl.
  - unfold index. destruct (decide (key = anySignal)) as [-> | Hne].
    + rewrite lookup_insert_eq. reflexivity.
    + rewrite lookup_insert_ne by congruence. rewrite app_nil_r. reflexivity.
  - apply index_foldl_register_one.
Qed.

Lemma register_all_cons f signals regs s :
  register_all ((f, signals) :: regs) s
    = register_all regs (RegisterSignalHandler (userHandler f) signals s).
Proof. reflexivity. Qed.

Lemma index_register_all regs s key :
  index (handlers (register_all regs s)) key
    = index (handlers s) key ++ (userHandler <$> registered key regs).
Proof.
  revert s. induction regs as [ | [f signals] regs IH]; intros s.
  - simpl. rewrite app_nil_r. reflexivity.
  - rewrite register_all_cons, IH, index_RegisterSignalHandler.
    unfold registered. simpl.
    rewrite fmap_app, <- app_assoc. f_equal. f_equal.
    destruct (decide (length signals = 0%nat)).
    + destruct (decide (key = anySignal)); reflexivity.
    + rewrite fmap_replicate. reflexivity.
Qed.

Lemma register_all_fields regs s :
  log (register_all regs s) = log s
  /\ exit (register_all regs s) = exit s
  /\ terminationSignals (register_all regs s) = terminationSignals s
  /\ terminationProcedures (register_all regs s) = terminationProcedures s.
Proof.
  revert s. induction regs as [ | [f signals] regs IH]; intros s.
  - repeat split.
  - rewrite register_all_cons.
    destruct (IH (RegisterSignalHandler (userHandler f) signals s))
      as (-> & -> & -> & ->).
    unfold RegisterSignalHandler.
    destruct (decide (length signals = 0%nat)); repeat split.
Qed.

Lemma NewHandlers_terminationSignals ts :
  terminationSignals (NewHandlers Println ts)
    = (if decide (length ts = 0%nat) then DefaultTerminationSignals else ts)
  /\ length (terminationSignals (NewHandlers Println ts)) <> 0%nat.
Proof.
  unfold NewHandlers, installTerminationHandlers, RegisterSignalHandler. simpl.
  destruct (decide (length ts = 0%nat)) as [Hz | Hnz]; simpl.
  - split; [reflexivity | discriminate].
  - rewrite decide_False by exact Hnz. simpl. split; [reflexivity | exact Hnz].
Qed.

Lemma NewHandlers_log ts : log (NewHandlers Println ts) = Some (stdLogger Println).
Proof.
  unfold NewHandlers, installTerminationHandlers, RegisterSignalHandler. simpl.
  match goal with |- context [decide ?P] => destruct (decide P) end;
    reflexivity.
Qed.

Lemma stdLogger_quiet : quiet (stdLogger Println).
Proof. intros args w. reflexivity. Qed.

(** The registry made by [NewHandlers]: the termination method once per
    mention of the key among the termination signals, nothing else. *)
Lemma index_NewHandlers ts key :
  index (handlers (NewHandlers Println ts)) key
    = replicate (occurrences key (terminationSignals (NewHandlers Println ts)))
        handleTerminationSignals_method.
Proof.
  destruct (NewHandlers_terminationSignals ts) as [Hts Hlen].
  rewrite Hts in Hlen |- *.
  unfold NewHandlers, installTerminationHandlers.
  rewrite index_RegisterSignalHandler. simpl.
  rewrite decide_False by exact Hlen.
  unfold index at 1.
  destruct (decide (key = anySignal)) as [-> | Hne].
  - rewrite lookup_insert_eq. reflexivity.
  - rewrite lookup_insert_ne by congruence. rewrite lookup_empty. reflexivity.
Qed.

Lemma registered_anySignal regs :
  Forall (fun r => anySignal ∉ r.2) regs ->
  registered anySignal regs = wildcards regs.
Proof.
  unfold registered, wildcards.
  induction 1 as [ | [f signals] regs Hr Hrest IH]; simpl in *.
  - reflexivity.
  - rewrite filter_cons, IH. simpl.
    destruct signals as [ | sig signals]; simpl.
    + reflexivity.
    + rewrite occurrences_notin by exact Hr. reflexivity.
Qed.

Lemma registered_specifics target regs :
  target <> anySignal -> registered target regs = specifics target regs.
Proof.
  intros Hne. unfold registered, specifics.
  induction regs as [ | [f signals] regs IH]; simpl.
  - reflexivity.
  - rewrite IH. f_equal.
    destruct signals as [ | sig signals]; simpl.
    + rewrite decide_False by exact Hne. reflexivity.
    + reflexivity.
Qed.

(** ** A nil logger *)

Lemma runTerminationProcedures_nil s sig w :
  log s = None -> runTerminationProcedures s sig w = Panicked w.
Proof.
  intros Hlog. unfold runTerminationProcedures.
  destruct (terminationProcedures s) as [ | proc rest]; simpl.
  - apply bind_Panicked, log_Info_nil, Hlog.
  - apply bind_Panicked. apply bind_Panicked, log_Info_nil, Hlog.
Qed.

Lemma call_handlers_nil s target hs w :
  log s = None ->
  exists w', call_handlers s target hs w = Done tt w'
             \/ call_handlers s target hs w = Panicked w'.
Proof.
  intros Hlog. revert w. induction hs as [ | h hs IH]; intros w; simpl.
  - exists w. left. reflexivity.
  - destruct h as [f | ]; simpl.
    + unfold mbind, M_bind, call. apply IH.
    + exists w. right. apply bind_Panicked.
      unfold handleTerminationSignals.
      apply bind_Panicked, runTerminationProcedures_nil, Hlog.
Qed.

Lemma range_handlers_nil s target entries key w :
  log s = None ->
  key <> target ->
  key ∈ entries.*1 ->
  exists w', range_handlers s target entries w = Panicked w'.
Proof.
  intros Hlog Hne. revert w.
  induction entries as [ | [sig hs] entries IH]; intros w Hin.
  - apply elem_of_nil in Hin. contradiction.
  - simpl. destruct (decide (sig ≠ target)) as [Hsig | Hsig].
    + exists w. apply bind_Panicked, log_Debug_nil, Hlog.
    + assert (key ∈ entries.*1) as Hrest.
      { rewrite fmap_cons in Hin. apply elem_of_cons in Hin as [-> | Hin].
        - simpl in Hsig. contradiction.
        - exact Hin. }
      destruct (call_handlers_nil s target hs w Hlog) as [w1 [Hc | Hc]].
      * destruct (IH w1 Hrest) as [w2 Hw2]. exists w2.
        erewrite bind_Done by exact Hc. exact Hw2.
      * exists w1. apply bind_Panicked, Hc.
Qed.

(** C7: [SetLogger(nil)] itself succeeds and only replaces the logger (the
    exit function, the registry, the termination signals and the termination
    procedures stay as they are), and registering signal callbacks goes on as
    before; every operation that
    reaches a logging call then panics: [RegisterTerminationProcedure] (after
    it has appended the procedure), the termination pipeline, the dispatch of
    an OS signal, [StartListen]. *)
Theorem SetLogger_nil_panics s f msg h signals sig target entries w :
  target <> anySignal ->
  is_Some (handlers s !! anySignal) ->
  range_of (handlers s) entries ->
  log (SetLogger None s) = None
  /\ exit (SetLogger None s) = exit s
  /\ handlers (SetLogger None s) = handlers s
  /\ terminationSignals (SetLogger None s) = terminationSignals s
  /\ terminationProcedures (SetLogger None s) = terminationProcedures s
  /\ RegisterSignalHandler h signals (SetLogger None s)
       = SetLogger None (RegisterSignalHandler h signals s)
  /\ terminationProcedures
       (RegisterTerminationProcedure f msg (SetLogger None s)).1
       = terminationProcedures s ++ [{| fn := f; message := msg |}]
  /\ (RegisterTerminationProcedure f msg (SetLogger None s)).2 w = Panicked w
  /\ runTerminationProcedures (SetLogger None s) sig w = Panicked w
  /\ (exists w', handleSignal (SetLogger None s) target entries w = Panicked w')
  /\ StartListen (SetLogger None s) w = Panicked w.
Proof.
  intros Htarget Hany Hrange.
  repeat split.
  - unfold RegisterSignalHandler.
    destruct (decide (length signals = 0%nat)); reflexivity.
  - apply runTerminationProcedures_nil. reflexivity.
  - unfold handleSignal.
    destruct (call_handlers_nil (SetLogger None s) target
                (index (handlers (SetLogger None s)) anySignal) w)
      as [w1 [Hc | Hc]]; [reflexivity | | ].
    + destruct (range_handlers_nil (SetLogger None s) target entries
                  anySignal w1) as [w2 Hw2].
      * reflexivity.
      * congruence.
      * eapply range_of_key; [exact Hrange | exact Hany].
      * exists w2. erewrite bind_Done by exact Hc. exact Hw2.
    + exists w1. apply bind_Panicked, Hc.
Qed.

End Properties.

(** ** The properties on the trace world *)

Lemma runTerminationProcedures_empty_witness :
  runTerminationProcedures (NewHandlers tracePrintln []) SIGINT []
    = Done 0 [evPrintln [argString "nothing to do before termination"]].
Proof.
  apply (runTerminationProcedures_empty
           (NewHandlers tracePrintln []) (stdLogger tracePrintln) SIGINT []);
    reflexivity.
Defined.

Lemma SetLogger_nil_panics_witness :
  (RegisterTerminationProcedure (returning "cleanup" None) "cleanup"
     (SetLogger None (NewHandlers tracePrintln []))).2 [] = Panicked []
  /\ runTerminationProcedures
       (SetLogger None (NewHandlers tracePrintln [])) SIGTERM [] = Panicked []
  /\ exists t,
       handleSignal (SetLogger None (NewHandlers tracePrintln [])) SIGUSR1
         (map_to_list (handlers (NewHandlers tracePrintln []))) [] = Panicked t.
Proof.
  destruct (SetLogger_nil_panics (NewHandlers tracePrintln [])
              (returning "cleanup" None) "cleanup"
              (userHandler (named "h")) [SIGUSR1] SIGTERM SIGUSR1
              (map_to_list (handlers (NewHandlers tracePrintln []))) [])
    as (_ & _ & _ & _ & _ & _ & _ & Hreg & Hrun & Hdispatch & _).
  - discriminate.
  - exists []. reflexivity.
  - unfold range_of. reflexivity.
  - split; [exact Hreg | split; [exact Hrun | exact Hdispatch]].
Defined.

(** After [SetLogger(nil)] on a fresh object, registering a termination
    procedure does not return: the claim that later operations succeed fails. *)
Lemma SetLogger_nil_counterexample :
  ~ (exists t,
       (RegisterTerminationProcedure (returning "cleanup" None) "cleanup"
          (SetLogger None (NewHandlers tracePrintln []))).2 [] = Done tt t).
Proof. intros [t Ht]. vm_compute in Ht. discriminate Ht. Qed.

(** ** The package's tests and the specification's examples *)

(** A coded failure (42) followed by an unwrapped one: the pipeline resolves
    42 and still runs the second procedure. *)
Example pipeline_first_error_wins :
  exists t,
    runTerminationProcedures
      (with_procedures [("p1", WrapErrorWithCode (Some io_EOF) 42);
                        ("p2", Some io_EOF)]) SIGTERM [] = Done 42 t
    /\ calls t = ["p1"; "p2"].
Proof. eexists. split; reflexivity. Qed.

(** The same with the code 0 in the carrier: the second error decides. *)
Example pipeline_zero_code_then_error :
  exists t,
    runTerminationProcedures
      (with_procedures [("p1", WrapErrorWithCode (Some io_EOF) 0);
                        ("p2", WrapErrorWithCode (Some io_EOF) 5)]) SIGTERM []
      = Done 5 t
    /\ calls t = ["p1"; "p2"].
Proof. eexists. split; reflexivity. Qed.

Example exit_one_while_error :
  exists t,
    handleSignal (with_procedures [("p", Some io_EOF)]) SIGTERM
      (map_to_list (handlers exit_test_handlers)) [] = Done tt t
    /\ exits t = [1].
Proof. eexists. split; vm_compute; reflexivity. Qed.

Example exit_given_code_while_error :
  exists t,
    handleSignal (with_procedures [("p", WrapErrorWithCode (Some io_EOF) 42)])
      SIGTERM (map_to_list (handlers exit_test_handlers)) [] = Done tt t
    /\ exits t = [42].
Proof. eexists. split; vm_compute; reflexivity. Qed.

Example exit_once_per_default_signal :
  exists t1 t2,
    handleSignal exit_test_handlers SIGTERM
      (map_to_list (handlers exit_test_handlers)) [] = Done tt t1
    /\ handleSignal exit_test_handlers SIGINT
         (map_to_list (handlers exit_test_handlers)) t1 = Done tt t2
    /\ exits t1 = [0] /\ exits t2 = [0; 0].
Proof. do 2 eexists. repeat split; vm_compute; reflexivity. Qed.

(** With a logger that records [Debug], the dispatch of SIGUSR1 logs once for
    each other key of the registry; the callbacks keep their order. *)
Example dispatch_with_debug_logger :
  exists t,
    handleSignal (SetLogger (Some traceLogger) order_test_handlers) SIGUSR1
      (map_to_list (handlers order_test_handlers)) [] = Done tt t
    /\ calls t = ["a1"; "a2"; "1"; "2"]
    /\ length t = 6%nat.
Proof. eexists. repeat split; vm_compute; reflexivity. Qed.

(** * Further properties of the package *)

Section Pipeline.

Context {World : Type}.
Variable Println : list LogArg -> World -> World.

Implicit Types (s : @Handlers World) (w : World) (sig target : Signal).
Implicit Types (procs : list (@terminationProcedure World)).

Lemma first_nonzero_nonzero (codes : list Z) :
  first_nonzero codes <> 0 <-> Exists (fun c => c <> 0) codes.
Proof.
  unfold first_nonzero. induction codes as [ | c codes IH].
  - simpl. rewrite Exists_nil. tauto.
  - rewrite filter_cons, Exists_cons.
    destruct (decide (c <> 0)) as [Hc | Hc]; simpl; tauto.
Qed.

Lemma pipeline_run_all_nil (l : @Logger World) sig procs w :
  (forall proc sig' w', proc ∈ procs -> (fn proc sig' w').1 = None) ->
  Forall (fun e => e = None) (pipeline_run l sig procs w).1.
Proof.
  revert w. induction procs as [ | proc rest IH]; intros w Hnil; simpl.
  - constructor.
  - pose proof (Hnil proc sig (Info l [argString (message proc)] w)
                  ltac:(left)) as Hhead.
    destruct (fn proc sig _) as [e w1]. simpl in Hhead. subst e.
    specialize (IH w1 ltac:(intros p sg w' Hp; apply Hnil; right; exact Hp)).
    destruct (pipeline_run l sig rest w1) as [es w3]. simpl in *.
    constructor; [reflexivity | exact IH].
Qed.

Lemma first_nonzero_all_nil (errs : list error) :
  Forall (fun e => e = None) errs -> first_nonzero (resolved <$> errs) = 0.
Proof.
  unfold first_nonzero. induction 1 as [ | e errs -> Hrest IH].
  - reflexivity.
  - rewrite fmap_cons, filter_cons.
    rewrite decide_False by (simpl; tauto). exact IH.
Qed.

Lemma runTerminationProcedures_nothing s l sig w :
  terminationProcedures s = [] ->
  log s = Some l ->
  runTerminationProcedures s sig w
    = Done 0 (Info l [argString "nothing to do before termination"] w).
Proof.
  intros Hprocs Hlog. unfold runTerminationProcedures. rewrite Hprocs.
  rewrite decide_True by reflexivity.
  erewrite bind_Done by (apply log_Info_Some; exact Hlog). reflexivity.
Qed.

(** X1: when no registered procedure returns an error the pipeline returns
    0, after running them all. *)
Theorem runTerminationProcedures_no_error s l sig w :
  log s = Some l ->
  (forall proc sig' w',
     proc ∈ terminationProcedures s -> (fn proc sig' w').1 = None) ->
  runTerminationProcedures s sig w
    = Done 0
        (match terminationProcedures s with
         | [] => Info l [argString "nothing to do before termination"] w
         | _ :: _ =>
             Info l [argString "all termination procedures are done"]
               (pipeline_run l sig (terminationProcedures s) w).2
         end)
  /\ length (pipeline_run l sig (terminationProcedures s) w).1
       = length (terminationProcedures s).
Proof.
  intros Hlog Hnil. split; [ | apply pipeline_run_length].
  destruct (terminationProcedures s) as [ | proc rest] eqn:Hprocs.
  - apply runTerminationProcedures_nothing; assumption.
  - rewrite (runTerminationProcedures_run s l) by (congruence || assumption).
    rewrite Hprocs, first_nonzero_all_nil; [reflexivity | ].
    apply pipeline_run_all_nil. exact Hnil.
Qed.

(** X2: on a non-empty sequence, as long as no procedure returns a carrier
    of the code 0, the pipeline returns the code of the first error returned
    (its carried code, or 1), and 0 when none is returned; one result is
    collected from each procedure. *)
Theorem runTerminationProcedures_first_error s l sig w :
  log s = Some l ->
  terminationProcedures s <> [] ->
  Forall (fun e => e <> None -> resolved e <> 0)
    (pipeline_run l sig (terminationProcedures s) w).1 ->
  runTerminationProcedures s sig w
    = Done (first_error_code (pipeline_run l sig (terminationProcedures s) w).1)
        (Info l [argString "all termination procedures are done"]
           (pipeline_run l sig (terminationProcedures s) w).2)
  /\ length (pipeline_run l sig (terminationProcedures s) w).1
       = length (terminationProcedures s).
Proof.
  intros Hlog Hne Hcodes. split; [ | apply pipeline_run_length].
  rewrite (runTerminationProcedures_run s l) by assumption.
  rewrite first_nonzero_first_error by exact Hcodes. reflexivity.
Qed.

(** X3: the pipeline returns a code other than 0 exactly when some returned
    error resolves to a code other than 0. *)
Theorem runTerminationProcedures_nonzero_iff s l sig w code w' :
  log s = Some l ->
  runTerminationProcedures s sig w = Done code w' ->
  code <> 0
  <-> Exists (fun e => resolved e <> 0)
        (pipeline_run l sig (terminationProcedures s) w).1.
Proof.
  intros Hlog Hrun.
  destruct (terminationProcedures s) as [ | proc rest] eqn:Hprocs.
  - rewrite (runTerminationProcedures_nothing s l) in Hrun by assumption.
    injection Hrun as <- _. simpl. rewrite Exists_nil. tauto.
  - rewrite (runTerminationProcedures_run s l) in Hrun
      by (congruence || assumption).
    injection Hrun as <- _. rewrite Hprocs.
    rewrite first_nonzero_nonzero, Exists_fmap. reflexivity.
Qed.

Lemma register_procedures_fields (ps : list (@TerminationFunc World * string)) s :
  terminationProcedures (register_procedures ps s)
    = terminationProcedures s
      ++ ((fun p => {| fn := p.1; message := p.2 |}) <$> ps)
  /\ log (register_procedures ps s) = log s
  /\ exit (register_procedures ps s) = exit s
  /\ handlers (register_procedures ps s) = handlers s
  /\ terminationSignals (register_procedures ps s) = terminationSignals s.
Proof.
  revert s. induction ps as [ | [f msg] ps IH]; intros s.
  - simpl. rewrite app_nil_r. repeat split.
  - change (register_procedures ((f, msg) :: ps) s)
      with (register_procedures ps (RegisterTerminationProcedure f msg s).1).
    destruct (IH (RegisterTerminationProcedure f msg s).1)
      as (-> & -> & -> & -> & ->).
    simpl. rewrite <- app_assoc. repeat split.
Qed.

(** X4: after any registrations of termination procedures on a new object,
    the pipeline runs them in registration order, each announced by its
    message on the standard logger, and returns the first resolved code that
    is not 0. *)
Theorem runTerminationProcedures_registered
  (ts : list Signal) (ps : list (@TerminationFunc World * string)) sig w :
  runTerminationProcedures
    (register_procedures ps (NewHandlers Println ts)) sig w
  = match ps with
    | [] => Done 0 (Println [argString "nothing to do before termination"] w)
    | _ :: _ =>
        Done (first_nonzero
                (resolved <$>
                   (pipeline_run (stdLogger Println) sig
                      ((fun p => {| fn := p.1; message := p.2 |}) <$> ps) w).1))
          (Println [argString "all termination procedures are done"]
             (pipeline_run (stdLogger Println) sig
                ((fun p => {| fn := p.1; message := p.2 |}) <$> ps) w).2)
    end.
Proof.
  destruct (register_procedures_fields ps (NewHandlers Println ts))
    as (Hprocs & Hlog & _).
  rewrite NewHandlers_log in Hlog.
  assert (terminationProcedures (NewHandlers Println ts) = []) as Hnew.
  { unfold NewHandlers, installTerminationHandlers, RegisterSignalHandler.
    simpl. repeat match goal with
           | |- context [decide ?P] => destruct (decide P)
           end; reflexivity. }
  rewrite Hnew in Hprocs. simpl in Hprocs.
  destruct ps as [ | p ps].
  - apply (runTerminationProcedures_nothing _ (stdLogger Println)); assumption.
  - rewrite (runTerminationProcedures_run _ (stdLogger Println)).
    + rewrite Hprocs. reflexivity.
    + exact Hlog.
    + rewrite Hprocs. discriminate.
Qed.

End Pipeline.

Section Registry.

Context {World : Type}.
Variable Println : list LogArg -> World -> World.

Implicit Types (s : @Handlers World) (w : World) (sig target key : Signal).
Implicit Types (h : @HandlerFunc World) (hs : list (@HandlerFunc World)).
Implicit Types (m : gmap Signal (list (@HandlerFunc World))).
Implicit Types (entries : list (Signal * list (@HandlerFunc World))).

Lemma lookup_register_one h m sig key :
  register_one h m sig !! key
    = if decide (key = sig) then Some (index m key ++ [h]) else m !! key.
Proof.
  unfold register_one, index.
  destruct (decide (key = sig)) as [-> | Hne].
  - destruct (m !! sig) as [hs | ]; rewrite lookup_insert_eq; reflexivity.
  - destruct (m !! sig) as [hs | ]; rewrite lookup_insert_ne by congruence;
      reflexivity.
Qed.

Lemma occurrences_cons key sig signals :
  occurrences key (sig :: signals)
    = ((if decide (key = sig) then 1 else 0) + occurrences key signals)%nat.
Proof.
  unfold occurrences. rewrite filter_cons.
  destruct (decide (key = sig)); reflexivity.
Qed.

Lemma lookup_foldl_register_one h signals m key :
  foldl (register_one h) m signals !! key
    = if decide (key ∈ signals)
      then Some (index m key ++ replicate (occurrences key signals) h)
      else m !! key.
Proof.
  revert m. induction signals as [ | sig signals IH]; intros m; simpl.
  - reflexivity.
  - rewrite IH, index_register_one, lookup_register_one, occurrences_cons.
    destruct (decide (key = sig)) as [-> | Hne].
    + rewrite (decide_True (P := sig ∈ sig :: signals)) by left.
      destruct (decide (sig ∈ signals)) as [Hin | Hnot].
      * rewrite <- app_assoc. reflexivity.
      * rewrite occurrences_notin by exact Hnot. reflexivity.
    + rewrite app_nil_r.
      destruct (decide (key ∈ signals)) as [Hin | Hnot].
      * rewrite decide_True by (right; exact Hin). reflexivity.
      * rewrite decide_False; [reflexivity | ].
        rewrite not_elem_of_cons. tauto.
Qed.

(** X5: what [RegisterSignalHandler] stores.  With no signal named, the
    callback is appended to the wildcard list; otherwise it is appended to the
    list of every named signal, once per mention, a list being created for a
    signal that had none; every other key keeps its list. *)
Theorem RegisterSignalHandler_lookup h signals s key :
  handlers (RegisterSignalHandler h signals s) !! key
    = match signals with
      | [] =>
          if decide (key = anySignal)
          then Some (index (handlers s) anySignal ++ [h])
          else handlers s !! key
      | _ :: _ =>
          if decide (key ∈ signals)
          then Some (index (handlers s) key
                     ++ replicate (occurrences key signals) h)
          else handlers s !! key
      end.
Proof.
  unfold RegisterSignalHandler. destruct signals as [ | sig signals]; simpl.
  - destruct (decide (key = anySignal)) as [-> | Hne].
    + apply lookup_insert_eq.
    + apply lookup_insert_ne. congruence.
  - apply (lookup_foldl_register_one h (sig :: signals)).
Qed.

(** X6: the keys of the registry after [RegisterSignalHandler] are the keys
    before it and the named signals, or the wildcard key when none is named. *)
Theorem RegisterSignalHandler_dom h signals s :
  dom (handlers (RegisterSignalHandler h signals s))
    = dom (handlers s)
      ∪ (match signals with
         | [] => {[anySignal]}
         | _ :: _ => list_to_set signals
         end).
Proof.
  apply set_eq. intros key.
  rewrite elem_of_union, !elem_of_dom.
  unfold RegisterSignalHandler. destruct signals as [ | sig signals].
  - simpl. rewrite lookup_insert_is_Some', elem_of_singleton.
    split; intros [H | H]; auto.
  - rewrite decide_False by discriminate. cbn [handlers set_handlers].
    rewrite (lookup_foldl_register_one h (sig :: signals)).
    rewrite (elem_of_list_to_set (C := gset Signal) key (sig :: signals)).
    destruct (decide (key ∈ sig :: signals)) as [Hin | Hnot].
    + split; [intros _; right; exact Hin | intros _; eexists; reflexivity].
    + tauto.
Qed.

(** X7: the registry of a new object.  Each termination signal is bound to
    the termination method, once per mention, the wildcard key is bound to
    the empty list (unless named as a termination signal), and no other key
    exists; the termination signals are the given ones, or SIGTERM and SIGINT
    when none is given. *)
Theorem NewHandlers_lookup (ts : list Signal) key :
  terminationSignals (NewHandlers Println ts)
    = match ts with [] => [SIGTERM; SIGINT] | _ :: _ => ts end
  /\ handlers (NewHandlers Println ts) !! key
     = if decide (key ∈ terminationSignals (NewHandlers Println ts))
       then Some (replicate
                    (occurrences key (terminationSignals (NewHandlers Println ts)))
                    handleTerminationSignals_method)
       else if decide (key = anySignal) then Some [] else None.
Proof.
  split; [destruct ts; reflexivity | ].
  assert (forall ts' : list Signal, ts' <> [] ->
            handlers (installTerminationHandlers
              {| terminationSignals := ts';
                 handlers := <[anySignal := []]> ∅;
                 log := Some (stdLogger Println);
                 exit := os_Exit;
                 terminationProcedures := [] |}) !! key
            = if decide (key ∈ ts')
              then Some (replicate (occurrences key ts')
                           handleTerminationSignals_method)
              else if decide (key = anySignal) then Some [] else None) as Hgen.
  { intros ts' Hne. unfold installTerminationHandlers, RegisterSignalHandler.
    simpl. rewrite decide_False by (destruct ts'; [congruence | discriminate]).
    simpl. rewrite lookup_foldl_register_one. unfold index.
    destruct (decide (key = anySignal)) as [-> | Hkey].
    - rewrite lookup_insert_eq. reflexivity.
    - rewrite lookup_insert_ne by congruence. rewrite lookup_empty.
      reflexivity. }
  destruct ts as [ | t ts].
  - apply (Hgen DefaultTerminationSignals). discriminate.
  - apply (Hgen (t :: ts)). discriminate.
Qed.

End Registry.

Section Dispatch.

Context {World : Type}.
Variable Println : list LogArg -> World -> World.

Implicit Types (s : @Handlers World) (w : World) (sig target key : Signal).
Implicit Types (h : @HandlerFunc World) (hs : list (@HandlerFunc World)).
Implicit Types (entries : list (Signal * list (@HandlerFunc World))).
Implicit Types (regs : list ((Signal -> World -> World) * list Signal)).

Lemma step_terminationSignals (o : Op) s :
  terminationSignals (step o s).1 = terminationSignals s.
Proof.
  destruct o; try reflexivity. simpl. unfold RegisterSignalHandler.
  destruct (decide (length signals = 0%nat)); reflexivity.
Qed.

(** X8: the termination signals chosen at construction never change,
    whatever operations follow. *)
Theorem run_ops_terminationSignals (ts : list Signal) (ops : list Op) :
  terminationSignals (run_ops ops (NewHandlers Println ts))
    = match ts with [] => [SIGTERM; SIGINT] | _ :: _ => ts end.
Proof.
  assert (forall s, terminationSignals (run_ops ops s) = terminationSignals s)
    as Hkeep.
  { induction ops as [ | o ops IH]; intros s; simpl.
    - reflexivity.
    - rewrite IH. apply step_terminationSignals. }
  rewrite Hkeep. destruct ts; reflexivity.
Qed.

Lemma step_grow (o : Op) s key :
  terminationProcedures s `prefix_of` terminationProcedures (step o s).1
  /\ index (handlers s) key `prefix_of` index (handlers (step o s).1) key.
Proof.
  destruct o; simpl; try (split; reflexivity).
  - split.
    + unfold RegisterSignalHandler.
      destruct (decide (length signals = 0%nat)); reflexivity.
    + eexists. apply index_RegisterSignalHandler.
  - split; [ | reflexivity]. eexists. reflexivity.
Qed.

(** X9: nothing is ever unregistered.  Along any sequence of operations the
    list of termination procedures and the callback list of every key only
    grow at the end, and a key of the registry stays one. *)
Theorem run_ops_grow (ops : list Op) s key :
  terminationProcedures s `prefix_of` terminationProcedures (run_ops ops s)
  /\ index (handlers s) key `prefix_of` index (handlers (run_ops ops s)) key
  /\ dom (handlers s) ⊆ dom (handlers (run_ops ops s)).
Proof.
  split; [ | split;
    [ | intros k; rewrite !elem_of_dom; apply run_ops_is_Some]].
  - revert s. induction ops as [ | o ops IH]; intros s; simpl.
    + reflexivity.
    + etrans; [apply (step_grow o s key) | apply IH].
  - revert s. induction ops as [ | o ops IH]; intros s; simpl.
    + reflexivity.
    + etrans; [apply (step_grow o s key) | apply IH].
Qed.

Lemma range_of_length (m : gmap Signal (list (@HandlerFunc World))) entries :
  range_of m entries -> length entries = size m.
Proof.
  unfold range_of. intros Hperm. rewrite Hperm. apply length_map_to_list.
Qed.


Lemma handleTerminationSignals_run s l sig w code w2 :
  log s = Some l ->
  runTerminationProcedures s sig w = Done code w2 ->
  handleTerminationSignals s sig w
    = call_exit s code (Info l [argString "bye"] w2).
Proof.
  intros Hlog Hrun. unfold handleTerminationSignals.
  erewrite bind_Done by exact Hrun.
  erewrite bind_Done by (apply log_Info_Some; exact Hlog). reflexivity.
Qed.

End Dispatch.

Section Lifecycle.

Context {World : Type}.
Variable Println : list LogArg -> World -> World.

Implicit Types (s : @Handlers World) (w : World) (sig target key : Signal).
Implicit Types (entries : list (Signal * list (@HandlerFunc World))).
Implicit Types (regs : list ((Signal -> World -> World) * list Signal)).

Lemma NewHandlers_terminationProcedures (ts : list Signal) :
  terminationProcedures (NewHandlers Println ts) = [].
Proof.
  unfold NewHandlers, installTerminationHandlers, RegisterSignalHandler.
  simpl. repeat match goal with
         | |- context [decide ?P] => destruct (decide P)
         end; reflexivity.
Qed.

Lemma NewHandlers_anySignal_unbound (ts : list Signal) :
  anySignal ∉ ts ->
  occurrences anySignal (terminationSignals (NewHandlers Println ts)) = 0%nat.
Proof.
  intros Hts. apply occurrences_notin.
  destruct (NewHandlers_terminationSignals Println ts) as [-> _].
  destruct (decide (length ts = 0%nat)); [ | exact Hts].
  unfold DefaultTerminationSignals, SIGTERM, SIGINT.
  rewrite !not_elem_of_cons. repeat split; try discriminate.
  apply not_elem_of_nil.
Qed.

Lemma call_handlers_methods s l (f : Z -> World -> World) target (n : nat) w :
  log s = Some l ->
  exit s = exitFunc f ->
  terminationProcedures s = [] ->
  call_handlers s target (replicate n handleTerminationSignals_method) w
    = Done tt
        (Nat.iter n
           (fun w => f 0 (Info l [argString "bye"]
                     (Info l [argString "nothing to do before termination"] w)))
           w).
Proof.
  intros Hlog Hexit Hprocs. revert w.
  induction n as [ | n IH]; intros w.
  - reflexivity.
  - rewrite Nat.iter_succ_r. simpl.
    erewrite bind_Done; [apply IH | ].
    erewrite handleTerminationSignals_run.
    + unfold call_exit. rewrite Hexit. reflexivity.
    + exact Hlog.
    + apply runTerminationProcedures_nothing; assumption.
Qed.

(** X15: on a new object whose exit function was replaced, with no
    termination procedure, a dispatch calls the exit function with 0 once for
    every mention of the signal among the termination signals given to
    [NewHandlers]: twice for a signal given twice, never for another signal. *)
Theorem handleSignal_exit_per_mention
  (ts : list Signal) (f : Z -> World -> World) target entries w :
  target <> anySignal ->
  anySignal ∉ ts ->
  range_of (handlers (NewHandlers Println ts)) entries ->
  handleSignal (setExit (exitFunc f) (NewHandlers Println ts)) target entries w
    = Done tt
        (Nat.iter
           (occurrences target (terminationSignals (NewHandlers Println ts)))
           (fun w =>
              f 0 (Println [argString "bye"]
                     (Println [argString "nothing to do before termination"]
                        w)))
           w).
Proof.
  intros Htarget Hts Hrange.
  rewrite (handleSignal_quiet _ (stdLogger Println));
    [ | apply NewHandlers_log | apply stdLogger_quiet | exact Hrange].
  change (handlers (setExit (exitFunc f) (NewHandlers Println ts)))
    with (handlers (NewHandlers Println ts)).
  rewrite !index_NewHandlers, NewHandlers_anySignal_unbound by exact Hts.
  simpl.
  apply (call_handlers_methods _ (stdLogger Println) f).
  - apply NewHandlers_log.
  - reflexivity.
  - apply NewHandlers_terminationProcedures.
Qed.

Lemma handleSignal_user_callbacks (ts : list Signal) regs target entries w :
  target <> anySignal ->
  anySignal ∉ ts ->
  Forall (fun r => anySignal ∉ r.2) regs ->
  target ∉ terminationSignals (NewHandlers Println ts) ->
  range_of (handlers (register_all regs (NewHandlers Println ts))) entries ->
  handleSignal (register_all regs (NewHandlers Println ts)) target entries w
    = Done tt (foldl (fun w f => f target w) w
                 (wildcards regs ++ specifics target regs)).
Proof.
  intros Htarget Hts Hregs Hnot Hrange.
  rewrite (handleSignal_quiet _ (stdLogger Println)).
  - rewrite !index_register_all, !index_NewHandlers.
    rewrite registered_anySignal by exact Hregs.
    rewrite registered_specifics by exact Htarget.
    rewrite NewHandlers_anySignal_unbound by exact Hts.
    rewrite (occurrences_notin target) by exact Hnot. simpl.
    rewrite <- fmap_app. apply call_handlers_user.
  - destruct (register_all_fields regs (NewHandlers Println ts)) as [-> _].
    apply NewHandlers_log.
  - apply stdLogger_quiet.
  - exact Hrange.
Qed.

(** X16: the listener's loop on an object built by [NewHandlers] and
    registrations, for a series of received OS signals none of which is a
    termination signal: each signal is logged at Info level and dispatched
    before the next one, to the wildcard callbacks and then to its own, and
    the loop never ends the process. *)
Theorem listen_loop_user_signals (ts : list Signal) regs
  (received : list (Signal * list (Signal * list (@HandlerFunc World)))) w :
  anySignal ∉ ts ->
  Forall (fun r => anySignal ∉ r.2) regs ->
  Forall (fun r =>
            (r.1 <> anySignal)
            /\ (r.1 ∉ terminationSignals (NewHandlers Println ts))
            /\ range_of (handlers (register_all regs (NewHandlers Println ts)))
                 r.2) received ->
  listen_loop (register_all regs (NewHandlers Println ts)) received w
    = Done tt
        (foldl (fun w r =>
                  foldl (fun w f => f r.1 w)
                    (Println [argString "signal received: "; argSignal r.1] w)
                    (wildcards regs ++ specifics r.1 regs))
           w received).
Proof.
  intros Hts Hregs Hreceived. revert w.
  induction Hreceived as [ | [sig entries] received (Hsig & Hnot & Hrange) _ IH];
    intros w.
  - reflexivity.
  - simpl in Hsig, Hnot, Hrange.
    assert (listen_step (register_all regs (NewHandlers Println ts))
              sig entries w
            = Done tt
                (foldl (fun w f => f sig w)
                   (Println [argString "signal received: "; argSignal sig] w)
                   (wildcards regs ++ specifics sig regs))) as Hstep.
    { unfold listen_step.
      erewrite bind_Done.
      - apply handleSignal_user_callbacks; assumption.
      - apply (log_Info_Some _ (stdLogger Println)).
        destruct (register_all_fields regs (NewHandlers Println ts)) as [-> _].
        apply NewHandlers_log. }
    simpl. erewrite bind_Done by exact Hstep. apply IH.
Qed.

End Lifecycle.

(** X17: wrapping keeps failure and success apart and keeps the message:
    the result is nil exactly for a nil error, is a carrier exactly for a
    non-nil one, and its [Error()] is that of the wrapped error. *)
Theorem WrapErrorWithCode_preserves (e : error) (code : Z) :
  (WrapErrorWithCode e code = None <-> e = None)
  /\ (is_carrier (WrapErrorWithCode e code) = true <-> e <> None)
  /\ (Error <$> WrapErrorWithCode e code) = (Error <$> e).
Proof.
  destruct e as [v | ]; simpl.
  - repeat split; intros; congruence.
  - repeat split; intros; congruence.
Qed.

(** ** The further properties on the trace world *)

Lemma runTerminationProcedures_no_error_witness :
  exists t,
    runTerminationProcedures (with_procedures [("p1", None); ("p2", None)])
      SIGTERM [] = Done 0 t
    /\ calls t = ["p1"; "p2"].
Proof.
  destruct (runTerminationProcedures_no_error
              (with_procedures [("p1", None); ("p2", None)])
              (stdLogger tracePrintln) SIGTERM []) as [Hrun _].
  - reflexivity.
  - intros proc sig' w' Hin.
    change (proc ∈ [ {| fn := returning "p1" None; message := "p1" |};
                     {| fn := returning "p2" None; message := "p2" |} ]) in Hin.
    rewrite !elem_of_cons in Hin.
    destruct Hin as [-> | [-> | Hin]];
      [reflexivity | reflexivity | apply elem_of_nil in Hin; contradiction].
  - eexists. split; [exact Hrun | reflexivity].
Defined.

Lemma runTerminationProcedures_first_error_witness :
  exists t,
    runTerminationProcedures
      (with_procedures [("p1", None);
                        ("p2", WrapErrorWithCode (Some io_EOF) 42);
                        ("p3", Some io_EOF)]) SIGTERM [] = Done 42 t
    /\ calls t = ["p1"; "p2"; "p3"].
Proof.
  destruct (runTerminationProcedures_first_error
              (with_procedures [("p1", None);
                                ("p2", WrapErrorWithCode (Some io_EOF) 42);
                                ("p3", Some io_EOF)])
              (stdLogger tracePrintln) SIGTERM []) as [Hrun _].
  - reflexivity.
  - discriminate.
  - repeat constructor; intros Hnil; solve [discriminate | contradiction].
  - eexists. split; [exact Hrun | reflexivity].
Defined.

Lemma runTerminationProcedures_nonzero_iff_witness :
  42 <> 0
  <-> Exists (fun e => resolved e <> 0)
        (pipeline_run (stdLogger tracePrintln) SIGTERM
           (terminationProcedures
              (with_procedures [("p1", None);
                                ("p2", WrapErrorWithCode (Some io_EOF) 42)]))
           []).1.
Proof.
  eapply (runTerminationProcedures_nonzero_iff
            (with_procedures [("p1", None);
                              ("p2", WrapErrorWithCode (Some io_EOF) 42)])
            (stdLogger tracePrintln) SIGTERM [] 42).
  - reflexivity.
  - reflexivity.
Defined.


Lemma handleSignal_exit_per_mention_witness :
  exists t,
    handleSignal (setExit traceExit (NewHandlers tracePrintln [SIGTERM; SIGTERM]))
      SIGTERM
      (map_to_list (handlers (NewHandlers tracePrintln [SIGTERM; SIGTERM]))) []
      = Done tt t
    /\ exits t = [0; 0].
Proof.
  eexists. split.
  - apply (handleSignal_exit_per_mention tracePrintln [SIGTERM; SIGTERM]
             (fun code => record (evExit code)) SIGTERM
             (map_to_list
                (handlers (NewHandlers tracePrintln [SIGTERM; SIGTERM]))) []).
    + discriminate.
    + compute_done.
    + unfold range_of. reflexivity.
  - reflexivity.
Defined.

Lemma listen_loop_user_signals_witness :
  listen_loop order_test_handlers
    [(SIGUSR1, map_to_list (handlers order_test_handlers));
     (SIGUSR2, reverse (map_to_list (handlers order_test_handlers)))] []
  = Done tt
      [evPrintln [argString "signal received: "; argSignal SIGUSR1];
       evCalled "a1" SIGUSR1; evCalled "a2" SIGUSR1;
       evCalled "1" SIGUSR1; evCalled "2" SIGUSR1;
       evPrintln [argString "signal received: "; argSignal SIGUSR2];
       evCalled "a1" SIGUSR2; evCalled "a2" SIGUSR2].
Proof.
  refine (eq_trans
            (listen_loop_user_signals tracePrintln [nilSignal] order_test_regs
               [(SIGUSR1, map_to_list (handlers order_test_handlers));
                (SIGUSR2, reverse (map_to_list (handlers order_test_handlers)))]
               [] _ _ _) _).
  - compute_done.
  - compute_done.
  - repeat constructor; simpl;
      try discriminate; try compute_done.
    unfold range_of. apply reverse_Permutation.
  - reflexivity.
Defined.

Section Adapters.

Context {World : Type}.
Variable Println : list LogArg -> World -> World.

Lemma pipeline_run_adapters (l : @Logger World) (sig : Signal)
  (fs : list ((World -> World) * string)) (w : World) :
  pipeline_run l sig
    ((fun p => {| fn := p.1; message := p.2 |})
       <$> ((fun p => (NewTerminationFunc p.1, p.2)) <$> fs)) w
  = (replicate (length fs) None,
     foldl (fun w p => p.1 (Info l [argString p.2] w)) w fs).
Proof.
  revert w. induction fs as [ | [f msg] fs IH]; intros w.
  - reflexivity.
  - rewrite !fmap_cons. simpl. rewrite IH. reflexivity.
Qed.

Lemma first_nonzero_replicate_nil (n : nat) :
  first_nonzero (resolved <$> replicate n (None : error)) = 0.
Proof.
  apply first_nonzero_all_nil, Forall_replicate. reflexivity.
Qed.

(** X18: cleanup actions adapted by [NewTerminationFunc] cannot fail the
    shutdown.  Registered on a new object, they are each run once, in
    registration order, after their message is logged, and the pipeline
    returns 0. *)
Theorem runTerminationProcedures_adapters
  (ts : list Signal) (fs : list ((World -> World) * string))
  (sig : Signal) (w : World) :
  runTerminationProcedures
    (register_procedures ((fun p => (NewTerminationFunc p.1, p.2)) <$> fs)
       (NewHandlers Println ts)) sig w
  = Done 0
      (match fs with
       | [] => Println [argString "nothing to do before termination"] w
       | _ :: _ =>
           Println [argString "all termination procedures are done"]
             (foldl (fun w p => p.1 (Println [argString p.2] w)) w fs)
       end).
Proof.
  destruct (register_procedures_fields
              ((fun p => (NewTerminationFunc p.1, p.2)) <$> fs)
              (NewHandlers Println ts)) as (Hprocs & Hlog & _).
  rewrite NewHandlers_log in Hlog.
  rewrite NewHandlers_terminationProcedures in Hprocs. simpl in Hprocs.
  destruct fs as [ | p fs].
  - apply (runTerminationProcedures_nothing _ (stdLogger Println));
      assumption.
  - rewrite (runTerminationProcedures_run _ (stdLogger Println));
      [ | exact Hlog | rewrite Hprocs; discriminate].
    rewrite Hprocs.
    rewrite (pipeline_run_adapters (stdLogger Println) sig (p :: fs) w).
    cbn [fst snd]. rewrite first_nonzero_replicate_nil. reflexivity.
Qed.

End Adapters.

(** * Dispatch with a logger installed, explicitly *)

Section Termination.

Context {World : Type}.
Variable Println : list LogArg -> World -> World.

Implicit Types (s : @Handlers World) (w : World) (sig target key : Signal).
Implicit Types (l : @Logger World).
Implicit Types (hs rest : list (@HandlerFunc World)).
Implicit Types (ws fs : list (Signal -> World -> World)).
Implicit Types (entries : list (Signal * list (@HandlerFunc World))).
Implicit Types (regs : list ((Signal -> World -> World) * list Signal)).

Lemma debugs_Some s l target n w :
  log s = Some l -> debugs s target n w = Done tt (debug_calls l target n w).
Proof.
  intros Hlog. revert w. induction n as [ | n IH]; intros w.
  - reflexivity.
  - unfold debug_calls. rewrite Nat.iter_succ_r. cbn [debugs].
    erewrite bind_Done by (apply log_Debug_Some; exact Hlog).
    apply IH.
Qed.

Lemma runTerminationProcedures_total s l sig w :
  log s = Some l ->
  runTerminationProcedures s sig w
    = Done (pipeline_code l sig (terminationProcedures s) w)
        (pipeline_world l sig (terminationProcedures s) w).
Proof.
  intros Hlog.
  destruct (terminationProcedures s) as [ | proc procs] eqn:Hprocs.
  - apply runTerminationProcedures_nothing; assumption.
  - rewrite (runTerminationProcedures_run s l) by (congruence || assumption).
    rewrite Hprocs. reflexivity.
Qed.

Lemma handleTerminationSignals_total s l sig w :
  log s = Some l ->
  handleTerminationSignals s sig w
    = call_exit s (pipeline_code l sig (terminationProcedures s) w)
        (Info l [argString "bye"]
           (pipeline_world l sig (terminationProcedures s) w)).
Proof.
  intros Hlog. eapply handleTerminationSignals_run; [exact Hlog | ].
  apply runTerminationProcedures_total, Hlog.
Qed.

Lemma lookup_index (m : gmap Signal (list (@HandlerFunc World))) key :
  is_Some (m !! key) -> m !! key = Some (index m key).
Proof. unfold index. intros [hs ->]. reflexivity. Qed.

(** The dispatch of [target], which has the entry [hs], after wildcard
    callbacks that are all user callbacks. *)
Lemma handleSignal_split s l target ws hs entries :
  log s = Some l ->
  index (handlers s) anySignal = userHandler <$> ws ->
  handlers s !! target = Some hs ->
  range_of (handlers s) entries ->
  exists n1 n2 : nat,
    (n1 + 1 + n2 = size (handlers s))%nat
    /\ forall w,
         handleSignal s target entries w
           = (call_handlers s target hs;; debugs s target n2)
               (debug_calls l target n1 (foldl (fun w f => f target w) w ws)).
Proof.
  intros Hlog Hany Hlook Hrange.
  destruct (range_handlers_present s target hs entries)
    as (n1 & n2 & Hlen & Hrun).
  - eapply range_of_NoDup, Hrange.
  - eapply range_of_elem; eassumption.
  - exists n1, n2. split.
    + rewrite <- Hlen. apply range_of_length, Hrange.
    + intros w. unfold handleSignal. rewrite Hany.
      erewrite bind_Done by apply call_handlers_user.
      rewrite Hrun.
      erewrite bind_Done by (apply debugs_Some; exact Hlog).
      reflexivity.
Qed.

(** The same when the entry starts with the termination method. *)
Lemma handleSignal_method_first s l target ws rest entries :
  log s = Some l ->
  index (handlers s) anySignal = userHandler <$> ws ->
  handlers s !! target = Some (handleTerminationSignals_method :: rest) ->
  range_of (handlers s) entries ->
  exists n1 n2 : nat,
    (n1 + 1 + n2 = size (handlers s))%nat
    /\ forall w,
         handleSignal s target entries w
           = match exit s with
             | os_Exit =>
                 Exited
                   (pipeline_code l target (terminationProcedures s)
                      (debug_calls l target n1
                         (foldl (fun w f => f target w) w ws)))
                   (Info l [argString "bye"]
                      (pipeline_world l target (terminationProcedures s)
                         (debug_calls l target n1
                            (foldl (fun w f => f target w) w ws))))
             | exitFunc f =>
                 (call_handlers s target rest;; debugs s target n2)
                   (f (pipeline_code l target (terminationProcedures s)
                         (debug_calls l target n1
                            (foldl (fun w f => f target w) w ws)))
                      (Info l [argString "bye"]
                         (pipeline_world l target (terminationProcedures s)
                            (debug_calls l target n1
                               (foldl (fun w f => f target w) w ws)))))
             end.
Proof.
  intros Hlog Hany Hlook Hrange.
  destruct (handleSignal_split s l target ws _ entries Hlog Hany Hlook Hrange)
    as (n1 & n2 & Hlen & Hrun).
  exists n1, n2. split; [exact Hlen | ].
  intros w. rewrite Hrun. cbn [call_handlers call_handler].
  unfold mbind, M_bind.
  rewrite (handleTerminationSignals_total s l) by exact Hlog.
  unfold call_exit. destruct (exit s); reflexivity.
Qed.

(** X11: with a logger installed, dispatching a signal whose entry and the
    wildcard list hold user callbacks only returns after calling the wildcard
    callbacks, then the callbacks of the entry, each list in its order, and
    after making the Debug call "no handler found for signal" once for every
    other key of the registry: [n1] times before the callbacks of the entry
    and [n2] times after them, as the enumeration goes. *)
Theorem handleSignal_registered s l target ws fs entries :
  log s = Some l ->
  index (handlers s) anySignal = userHandler <$> ws ->
  handlers s !! target = Some (userHandler <$> fs) ->
  range_of (handlers s) entries ->
  exists n1 n2 : nat,
    (n1 + 1 + n2 = size (handlers s))%nat
    /\ forall w,
         handleSignal s target entries w
           = Done tt
               (debug_calls l target n2
                  (foldl (fun w f => f target w)
                     (debug_calls l target n1
                        (foldl (fun w f => f target w) w ws))
                     fs)).
Proof.
  intros Hlog Hany Hlook Hrange.
  destruct (handleSignal_split s l target ws _ entries Hlog Hany Hlook Hrange)
    as (n1 & n2 & Hlen & Hrun).
  exists n1, n2. split; [exact Hlen | ].
  intros w. rewrite Hrun.
  erewrite bind_Done by apply call_handlers_user.
  apply debugs_Some, Hlog.
Qed.

(** X12: with a logger installed, user callbacks only in the wildcard list
    and [os.Exit] as exit function, dispatching a signal whose entry starts
    with the termination method calls the wildcard callbacks, makes the Debug
    calls for the keys enumerated before the entry, runs the pipeline, logs
    "bye" and ends the process with the pipeline's code: whatever is
    registered for that signal after the method never runs. *)
Theorem handleSignal_os_Exit s l target ws rest entries :
  log s = Some l ->
  exit s = os_Exit ->
  index (handlers s) anySignal = userHandler <$> ws ->
  handlers s !! target = Some (handleTerminationSignals_method :: rest) ->
  range_of (handlers s) entries ->
  exists n1 : nat,
    (n1 < size (handlers s))%nat
    /\ forall w,
         handleSignal s target entries w
           = Exited
               (pipeline_code l target (terminationProcedures s)
                  (debug_calls l target n1
                     (foldl (fun w f => f target w) w ws)))
               (Info l [argString "bye"]
                  (pipeline_world l target (terminationProcedures s)
                     (debug_calls l target n1
                        (foldl (fun w f => f target w) w ws)))).
Proof.
  intros Hlog Hexit Hany Hlook Hrange.
  destruct (handleSignal_method_first s l target ws rest entries
              Hlog Hany Hlook Hrange) as (n1 & n2 & Hlen & Hrun).
  exists n1. split; [lia | ].
  intros w. rewrite Hrun, Hexit. reflexivity.
Qed.

(** X13: with a logger installed, user callbacks only in the wildcard list
    and an exit function [f] installed by [setExit], dispatching a signal
    whose entry is the termination method followed by user callbacks calls
    the wildcard callbacks, runs the pipeline, logs "bye", calls [f] once
    with the pipeline's code, then calls the user callbacks of the entry and
    returns; the Debug calls for the other keys come before the pipeline
    ([n1]) and after the last callback ([n2]). *)
Theorem handleSignal_exitFunc s l target (f : Z -> World -> World)
  ws fs entries :
  log s = Some l ->
  exit s = exitFunc f ->
  index (handlers s) anySignal = userHandler <$> ws ->
  handlers s !! target
    = Some (handleTerminationSignals_method :: (userHandler <$> fs)) ->
  range_of (handlers s) entries ->
  exists n1 n2 : nat,
    (n1 + 1 + n2 = size (handlers s))%nat
    /\ forall w,
         handleSignal s target entries w
           = Done tt
               (debug_calls l target n2
                  (foldl (fun w f => f target w)
                     (f (pipeline_code l target (terminationProcedures s)
                           (debug_calls l target n1
                              (foldl (fun w f => f target w) w ws)))
                        (Info l [argString "bye"]
                           (pipeline_world l target (terminationProcedures s)
                              (debug_calls l target n1
                                 (foldl (fun w f => f target w) w ws)))))
                     fs)).
Proof.
  intros Hlog Hexit Hany Hlook Hrange.
  destruct (handleSignal_method_first s l target ws _ entries
              Hlog Hany Hlook Hrange) as (n1 & n2 & Hlen & Hrun).
  exists n1, n2. split; [exact Hlen | ].
  intros w. rewrite Hrun, Hexit.
  erewrite bind_Done by apply call_handlers_user.
  apply debugs_Some, Hlog.
Qed.

End Termination.

Section Construction.

Context {World : Type}.
Variable Println : list LogArg -> World -> World.

Implicit Types (s : @Handlers World) (w : World) (sig target key : Signal).
Implicit Types (l : @Logger World).
Implicit Types (entries : list (Signal * list (@HandlerFunc World))).
Implicit Types (regs : list ((Signal -> World -> World) * list Signal)).

Lemma occurrences_in key (signals : list Signal) :
  key ∈ signals -> exists n : nat, occurrences key signals = S n.
Proof.
  induction signals as [ | sig signals IH]; intros Hin.
  - apply elem_of_nil in Hin. contradiction.
  - rewrite occurrences_cons.
    destruct (decide (key = sig)) as [-> | Hne].
    + eexists. reflexivity.
    + apply elem_of_cons in Hin as [Heq | Hin]; [contradiction | ].
      destruct (IH Hin) as [n ->]. exists n. reflexivity.
Qed.

Lemma index_cons_lookup (m : gmap Signal (list (@HandlerFunc World))) key h rest :
  index m key = h :: rest -> m !! key = Some (h :: rest).
Proof.
  unfold index. destruct (m !! key) as [hs | ]; simpl; intros Heq.
  - rewrite Heq. reflexivity.
  - discriminate Heq.
Qed.

Lemma debug_calls_quiet l target n w :
  quiet l -> debug_calls l target n w = w.
Proof.
  intros Hq. unfold debug_calls. induction n as [ | n IH]; simpl.
  - reflexivity.
  - rewrite Hq. exact IH.
Qed.

Lemma NewHandlers_exit (ts : list Signal) :
  exit (NewHandlers Println ts) = os_Exit.
Proof.
  unfold NewHandlers, installTerminationHandlers, RegisterSignalHandler.
  simpl. repeat match goal with
         | |- context [decide ?P] => destruct (decide P)
         end; reflexivity.
Qed.

Lemma run_ops_cons (o : Op) (ops : list Op) s :
  run_ops (o :: ops) s = run_ops ops (step o s).1.
Proof. reflexivity. Qed.

Lemma index_run_ops (ops : list Op) s key :
  index (handlers (run_ops ops s)) key
    = index (handlers s) key ++ (userHandler <$> registered key (regs_of ops)).
Proof.
  revert s. induction ops as [ | o ops IH]; intros s.
  - simpl. rewrite app_nil_r. reflexivity.
  - rewrite run_ops_cons, IH.
    destruct o as [h signals | f msg | lg | e | t ents];
      try reflexivity.
    simpl. rewrite index_RegisterSignalHandler.
    unfold registered at 2. simpl.
    rewrite fmap_app, <- app_assoc. f_equal. f_equal.
    destruct (decide (length signals = 0%nat)).
    + destruct (decide (key = anySignal)); reflexivity.
    + rewrite fmap_replicate. reflexivity.
Qed.

Lemma run_ops_keeps_terminationSignals (ops : list Op) s :
  terminationSignals (run_ops ops s) = terminationSignals s.
Proof.
  revert s. induction ops as [ | o ops IH]; intros s.
  - reflexivity.
  - rewrite run_ops_cons, IH. apply step_terminationSignals.
Qed.

(** C2: on a registry built by [NewHandlers] and any sequence of
    registrations, in whatever order the map is enumerated.  Dispatching an
    OS signal that is no termination signal calls the callbacks registered
    for all signals, in registration order, then those registered for that
    signal, in registration order, and returns.  Dispatching a termination
    signal calls the callbacks registered for all signals, in registration
    order, and then the termination method, which was registered first for
    that signal: it logs and ends the process with the code 0, so the
    callbacks registered for that signal are not called. *)
Theorem handleSignal_registration_order (ts : list Signal) regs target entries w :
  target <> anySignal ->
  anySignal ∉ ts ->
  Forall (fun r => anySignal ∉ r.2) regs ->
  range_of (handlers (register_all regs (NewHandlers Println ts))) entries ->
  (target ∉ terminationSignals (NewHandlers Println ts) ->
   handleSignal (register_all regs (NewHandlers Println ts)) target entries w
     = Done tt (foldl (fun w f => f target w) w
                  (wildcards regs ++ specifics target regs)))
  /\ (target ∈ terminationSignals (NewHandlers Println ts) ->
      handleSignal (register_all regs (NewHandlers Println ts)) target entries w
        = Exited 0
            (Println [argString "bye"]
               (Println [argString "nothing to do before termination"]
                  (foldl (fun w f => f target w) w (wildcards regs))))).
Proof.
  intros Htarget Hts Hregs Hrange.
  split; intros Hin.
  - apply handleSignal_user_callbacks; assumption.
  - destruct (register_all_fields regs (NewHandlers Println ts))
      as (Hlog & Hexit & _ & Hprocs).
    rewrite NewHandlers_log in Hlog.
    rewrite NewHandlers_exit in Hexit.
    rewrite NewHandlers_terminationProcedures in Hprocs.
    destruct (occurrences_in target _ Hin) as [k Hk].
    destruct (handleSignal_method_first
                (register_all regs (NewHandlers Println ts))
                (stdLogger Println) target (wildcards regs)
                (replicate k handleTerminationSignals_method
                 ++ (userHandler <$> specifics target regs)) entries)
      as (n1 & n2 & _ & Hrun).
    + exact Hlog.
    + rewrite index_register_all, index_NewHandlers.
      rewrite NewHandlers_anySignal_unbound by exact Hts.
      rewrite registered_anySignal by exact Hregs. reflexivity.
    + apply index_cons_lookup.
      rewrite index_register_all, index_NewHandlers, Hk.
      rewrite registered_specifics by exact Htarget. reflexivity.
    + exact Hrange.
    + rewrite Hrun, Hexit, Hprocs.
      rewrite debug_calls_quiet by apply stdLogger_quiet. reflexivity.
Qed.

(** C3: a [Handlers] made without arguments has the termination signals
    SIGTERM and SIGINT, and keeps them.  After any registrations of signal
    callbacks and replacements of the logger and of the exit function that
    leave a logger installed, and with no termination procedure registered,
    dispatching one of the two resolves the code 0 and calls the exit
    function once, with 0, after the callbacks registered for all signals and
    the two log lines: [os.Exit] ends the process there; a function installed
    by [setExit] is applied once, and the dispatch goes on with the
    callbacks registered for that signal and returns. *)
Theorem handleSignal_default_termination (ops : list Op) l sig entries w :
  sig ∈ DefaultTerminationSignals ->
  terminationProcedures (run_ops ops (NewHandlers Println [])) = [] ->
  log (run_ops ops (NewHandlers Println [])) = Some l ->
  range_of (handlers (run_ops ops (NewHandlers Println []))) entries ->
  terminationSignals (run_ops ops (NewHandlers Println [])) = [SIGTERM; SIGINT]
  /\ runTerminationProcedures (run_ops ops (NewHandlers Println [])) sig w
       = Done 0 (Info l [argString "nothing to do before termination"] w)
  /\ exists n1 n2 : nat,
       (n1 + 1 + n2 = size (handlers (run_ops ops (NewHandlers Println []))))%nat
       /\ handleSignal (run_ops ops (NewHandlers Println [])) sig entries w
          = match exit (run_ops ops (NewHandlers Println [])) with
            | os_Exit =>
                Exited 0
                  (Info l [argString "bye"]
                     (Info l [argString "nothing to do before termination"]
                        (debug_calls l sig n1
                           (foldl (fun w f => f sig w) w
                              (registered anySignal (regs_of ops))))))
            | exitFunc f =>
                Done tt
                  (debug_calls l sig n2
                     (foldl (fun w f => f sig w)
                        (f 0
                           (Info l [argString "bye"]
                              (Info l
                                 [argString "nothing to do before termination"]
                                 (debug_calls l sig n1
                                    (foldl (fun w f => f sig w) w
                                       (registered anySignal (regs_of ops)))))))
                        (registered sig (regs_of ops))))
            end.
Proof.
  intros Hsig Hprocs Hlog Hrange.
  split; [rewrite run_ops_keeps_terminationSignals; reflexivity | ].
  split; [apply runTerminationProcedures_nothing; assumption | ].
  assert (index (handlers (NewHandlers Println [])) sig
          = [handleTerminationSignals_method]) as Hsig_list.
  { unfold DefaultTerminationSignals in Hsig.
    rewrite !elem_of_cons in Hsig.
    destruct Hsig as [-> | [-> | Hsig]];
      [reflexivity | reflexivity | apply elem_of_nil in Hsig; contradiction]. }
  destruct (handleSignal_method_first
              (run_ops ops (NewHandlers Println [])) l sig
              (registered anySignal (regs_of ops))
              (userHandler <$> registered sig (regs_of ops)) entries)
    as (n1 & n2 & Hlen & Hrun).
  - exact Hlog.
  - rewrite index_run_ops. reflexivity.
  - apply index_cons_lookup. rewrite index_run_ops, Hsig_list. reflexivity.
  - exact Hrange.
  - exists n1, n2. split; [exact Hlen | ].
    rewrite Hrun, Hprocs.
    destruct (exit (run_ops ops (NewHandlers Println []))) as [ | f].
    + reflexivity.
    + erewrite bind_Done by apply call_handlers_user.
      apply debugs_Some, Hlog.
Qed.

End Construction.

(** ** Dispatch on the trace world *)

Lemma handleSignal_registration_order_witness :
  handleSignal order_test_handlers SIGUSR1
    (reverse (map_to_list (handlers order_test_handlers))) []
    = Done tt [evCalled "a1" SIGUSR1; evCalled "a2" SIGUSR1;
               evCalled "1" SIGUSR1; evCalled "2" SIGUSR1].
Proof.
  destruct (handleSignal_registration_order tracePrintln [nilSignal]
              order_test_regs SIGUSR1
              (reverse (map_to_list (handlers order_test_handlers))) [])
    as [Hrun _].
  - discriminate.
  - compute_done.
  - compute_done.
  - unfold range_of. apply reverse_Permutation.
  - apply Hrun. compute_done.
Defined.

(** A callback registered for SIGTERM on a new object is in the list of
    SIGTERM, after the termination method, and a dispatch of SIGTERM ends
    the process without calling it. *)
Lemma handleSignal_registration_order_counterexample :
  index (handlers (register_all [(named "h", [SIGTERM])]
                     (NewHandlers tracePrintln []))) SIGTERM
    = [handleTerminationSignals_method; userHandler (named "h")]
  /\ handleSignal
       (register_all [(named "h", [SIGTERM])] (NewHandlers tracePrintln []))
       SIGTERM
       (map_to_list
          (handlers (register_all [(named "h", [SIGTERM])]
                       (NewHandlers tracePrintln [])))) []
     = Exited 0 [evPrintln [argString "nothing to do before termination"];
                 evPrintln [argString "bye"]]
  /\ calls [evPrintln [argString "nothing to do before termination"];
            evPrintln [argString "bye"]] = [].
Proof. repeat split; vm_compute; reflexivity. Qed.

Lemma handleSignal_default_termination_witness :
  exists n1 n2 : nat,
    (n1 + 1 + n2 = 3)%nat
    /\ handleSignal replaced_handlers SIGTERM
         (map_to_list (handlers replaced_handlers)) []
       = Done tt
           (debug_calls traceLogger SIGTERM n2
              (named "late" SIGTERM
                 (record (evExit 0)
                    (record (evInfo [argString "bye"])
                       (record
                          (evInfo
                             [argString "nothing to do before termination"])
                          (debug_calls traceLogger SIGTERM n1
                             (named "all" SIGTERM []))))))).
Proof.
  destruct (handleSignal_default_termination tracePrintln replaced_ops
              traceLogger SIGTERM
              (map_to_list (handlers replaced_handlers)) [])
    as (_ & _ & n1 & n2 & Hlen & Hrun).
  - compute_done.
  - reflexivity.
  - reflexivity.
  - unfold range_of. reflexivity.
  - exists n1, n2. split; [exact Hlen | exact Hrun].
Defined.

(** After [SetLogger(nil)] on the object of the tests, a dispatch of SIGTERM
    panics in either enumeration of the registry, and the exit function has
    not been called. *)
Lemma handleSignal_default_termination_counterexample :
  terminationProcedures (SetLogger None exit_test_handlers) = []
  /\ handleSignal (SetLogger None exit_test_handlers) SIGTERM
       (map_to_list (handlers exit_test_handlers)) [] = Panicked []
  /\ handleSignal (SetLogger None exit_test_handlers) SIGTERM
       (reverse (map_to_list (handlers exit_test_handlers))) [] = Panicked []
  /\ exits [] = [].
Proof. repeat split; vm_compute; reflexivity. Qed.

(** After [SetLogger(nil)] on a new object, the pipeline with no procedure
    panics instead of returning 0. *)
Lemma runTerminationProcedures_empty_counterexample :
  terminationProcedures (SetLogger None (NewHandlers tracePrintln [])) = []
  /\ runTerminationProcedures (SetLogger None (NewHandlers tracePrintln []))
       SIGTERM [] = Panicked []
  /\ ~ (exists code t,
          runTerminationProcedures
            (SetLogger None (NewHandlers tracePrintln [])) SIGTERM []
          = Done code t).
Proof.
  repeat split; try (vm_compute; reflexivity).
  intros (code & t & Hrun). vm_compute in Hrun. discriminate Hrun.
Qed.

Example replaced_handlers_exit_once :
  exists t1 t2,
    handleSignal replaced_handlers SIGTERM
      (map_to_list (handlers replaced_handlers)) [] = Done tt t1
    /\ handleSignal replaced_handlers SIGINT
         (reverse (map_to_list (handlers replaced_handlers))) [] = Done tt t2
    /\ exits t1 = [0] /\ calls t1 = ["all"; "late"]
    /\ exits t2 = [0] /\ calls t2 = ["all"].
Proof. do 2 eexists. repeat split; vm_compute; reflexivity. Qed.

Lemma handleSignal_registered_witness :
  exists n1 n2 : nat,
    (n1 + 1 + n2 = 3)%nat
    /\ forall t,
         handleSignal logged_handlers SIGUSR1
           (map_to_list (handlers logged_handlers)) t
         = Done tt
             (debug_calls traceLogger SIGUSR1 n2
                (named "2" SIGUSR1
                   (named "1" SIGUSR1
                      (debug_calls traceLogger SIGUSR1 n1
                         (named "a2" SIGUSR1 (named "a1" SIGUSR1 t)))))).
Proof.
  apply (handleSignal_registered logged_handlers traceLogger SIGUSR1
           [named "a1"; named "a2"] [named "1"; named "2"]
           (map_to_list (handlers logged_handlers))).
  - reflexivity.
  - reflexivity.
  - reflexivity.
  - unfold range_of. reflexivity.
Defined.

Lemma handleSignal_os_Exit_witness :
  exists t,
    handleSignal (SetLogger (Some traceLogger) late_handlers) SIGTERM
      (map_to_list (handlers late_handlers)) [] = Exited 3 t.
Proof.
  destruct (handleSignal_os_Exit (SetLogger (Some traceLogger) late_handlers)
              traceLogger SIGTERM [named "all"] [userHandler (named "late")]
              (map_to_list (handlers late_handlers)))
    as (n1 & _ & Hrun).
  - reflexivity.
  - reflexivity.
  - reflexivity.
  - reflexivity.
  - unfold range_of. reflexivity.
  - eexists. rewrite Hrun. reflexivity.
Defined.

Lemma handleSignal_exitFunc_witness :
  exists n1 n2 : nat,
    (n1 + 1 + n2 = 3)%nat
    /\ forall t,
         handleSignal
           (SetLogger (Some traceLogger) (setExit traceExit late_handlers))
           SIGTERM (map_to_list (handlers late_handlers)) t
         = Done tt
             (debug_calls traceLogger SIGTERM n2
                (named "late" SIGTERM
                   (record (evExit 3)
                      (record (evInfo [argString "bye"])
                         (pipeline_world traceLogger SIGTERM
                            (terminationProcedures late_handlers)
                            (debug_calls traceLogger SIGTERM n1
                               (named "all" SIGTERM t))))))).
Proof.
  apply (handleSignal_exitFunc
           (SetLogger (Some traceLogger) (setExit traceExit late_handlers))
           traceLogger SIGTERM (fun code => record (evExit code))
           [named "all"] [named "late"]
           (map_to_list (handlers late_handlers))).
  - reflexivity.
  - reflexivity.
  - reflexivity.
  - reflexivity.
  - unfold range_of. reflexivity.
Defined.

Example late_handlers_traces :
  exists t1 t2,
    handleSignal (SetLogger (Some traceLogger) late_handlers) SIGTERM
      (map_to_list (handlers late_handlers)) [] = Exited 3 t1
    /\ handleSignal
         (SetLogger (Some traceLogger) (setExit traceExit late_handlers))
         SIGTERM (reverse (map_to_list (handlers late_handlers))) []
       = Done tt t2
    /\ calls t1 = ["all"; "cleanup"]
    /\ calls t2 = ["all"; "cleanup"; "late"] /\ exits t2 = [3].
Proof. do 2 eexists. repeat split; vm_compute; reflexivity. Qed.
